(** * C-BMP_Lib: a shallow embedding of [bmap.c] and its properties

    The development follows the layout of the C sources:
    - machine integers ([int], [uint8_t], [uint32_t], [size_t]) are [Z] with
      the wrap-around written out at every arithmetic operation ([int] is
      32 bits and wraps on overflow, [size_t] is 64 bits);
    - a [Pixel] is the packed three-byte struct of [bmap.h], a [BMPImage] the
      struct of two [int]s and a data pointer; pointers that the code tests
      against [NULL] are [option]s;
    - an access outside an allocated buffer, a dereference of [NULL] and a
      stdio call on a null stream have no defined meaning in C: the embedding
      makes them an explicit [Undef] outcome;
    - the file system, the allocator and the content of uninitialised memory
      form a [world] that [bmp_load], [bmp_save] and [bmp_rotate_right]
      thread through; the packed headers are laid out in little-endian
      byte order. *)

From Stdlib Require Import ZArith Lia.
From coqutil Require Import Byte Word.LittleEndianList.
From stdpp Require Import base option list gmap strings pretty.

Local Open Scope Z_scope.

(** ** Machine integers *)

Module Int.

Definition INT_MAX : Z := 2 ^ 31 - 1.
Definition INT_MIN : Z := - 2 ^ 31.

(** Conversion to [int] / [int32_t] (two's complement, 32 bits). *)
Definition to_int (z : Z) : Z := (z + 2 ^ 31) mod 2 ^ 32 - 2 ^ 31.

(** Conversions to the unsigned types. *)
Definition to_u8 (z : Z) : Z := z mod 2 ^ 8.
Definition to_u16 (z : Z) : Z := z mod 2 ^ 16.
Definition to_u32 (z : Z) : Z := z mod 2 ^ 32.
Definition to_size (z : Z) : Z := z mod 2 ^ 64.

End Int.
Export Int.

(** ** Outcomes: a value, or undefined behaviour *)

Inductive fault : Type :=
  | NullPointer   (* a dereference of NULL *)
  | NullStream    (* a stdio call on a null FILE pointer *)
  | OutOfBounds.  (* an access outside the allocated buffer *)

Inductive outcome (A : Type) : Type :=
  | Ret (a : A)
  | Undef (f : fault).
Arguments Ret {A} a.
Arguments Undef {A} f.

#[global] Instance outcome_ret : MRet outcome := @Ret.
#[global] Instance outcome_bind : MBind outcome := fun A B k m =>
  match m with
  | Ret a => k a
  | Undef f => Undef f
  end.

(** ** Data types of [bmap.h] *)

Inductive BMPError : Type :=
  | BMP_SUCCESS
  | BMP_ERR_FILE_NOT_FOUND
  | BMP_ERR_INVALID_FORMAT
  | BMP_ERR_MALLOC_FAILED.

(** The packed pixel: blue, green, red, one byte each. *)
Record Pixel : Type := mkPixel { blue : byte; green : byte; red : byte }.

Definition sizeof_Pixel : Z := 3.

(** [data] is [None] for a null pointer, otherwise the allocated block. *)
Record BMPImage : Type := mkImage {
  width : Z;
  height : Z;
  data : option (list Pixel)
}.

Definition sizeof_BMPImage : Z := 16.

Definition black : Pixel := mkPixel Byte.x00 Byte.x00 Byte.x00.

(** ** Arrays of pixels *)

(** [buf[i]] as an rvalue. *)
Definition array_get {A : Type} (buf : list A) (i : Z) : outcome A :=
  if i <? 0 then Undef OutOfBounds
  else match buf !! Z.to_nat i with
       | Some p => Ret p
       | None => Undef OutOfBounds
       end.

(** [buf[i] = x]. *)
Definition array_set {A : Type} (buf : list A) (i : Z) (x : A) : outcome (list A) :=
  if (i <? 0) || (Z.of_nat (length buf) <=? i) then Undef OutOfBounds
  else Ret (<[Z.to_nat i := x]> buf).

(** ** [calculate_padding] *)

(** [(4 - (width * sizeof(Pixel)) % 4) % 4]: [width] is converted to [size_t]
    by the multiplication with [sizeof], the result back to [int]. *)
Definition calculate_padding (width : Z) : Z :=
  to_int (to_size (4 - to_size (to_size width * sizeof_Pixel) mod 4) mod 4).

(** ** Pixel access *)

Definition out_of_range (image : BMPImage) (x y : Z) : bool :=
  (x <? 0) || (x >=? width image) || (y <? 0) || (y >=? height image).

Definition bmp_get_pixel (image : option BMPImage) (x y : Z) : outcome Pixel :=
  match image with
  | None => Ret black
  | Some im =>
    match data im with
    | None => Ret black
    | Some buf =>
      if out_of_range im x y then Ret black
      else
        let index := to_int (to_int (y * width im) + x) in
        array_get buf index
    end
  end.

(** The result is the state of the pointee after the call. *)
Definition bmp_set_pixel (image : option BMPImage) (x y : Z) (color : Pixel)
  : outcome (option BMPImage) :=
  match image with
  | None => Ret None
  | Some im =>
    match data im with
    | None => Ret image
    | Some buf =>
      if out_of_range im x y then Ret image
      else
        let index := to_int (to_int (y * width im) + x) in
        buf' ← array_set buf index color;
        Ret (Some (mkImage (width im) (height im) (Some buf')))
    end
  end.

(** ** The grayscale filter *)

(** The body of the grayscale loop on one pixel: the three channels are
    promoted to [int], summed, divided by 3 and stored in a [uint8_t]. *)
Definition gray (p : Pixel) : Pixel :=
  let avg :=
    byte.of_Z (to_u8 ((byte.unsigned (red p) + byte.unsigned (green p)
                       + byte.unsigned (blue p)) / 3)) in
  mkPixel avg avg avg.

(** [n] iterations of [for (...; i++) { data[i] = gray(data[i]); }]. *)
Fixpoint grayscale_loop (n : nat) (i : Z) (buf : list Pixel) : outcome (list Pixel) :=
  match n with
  | O => Ret buf
  | S n' =>
    p ← array_get buf i;
    buf' ← array_set buf i (gray p);
    grayscale_loop n' (i + 1) buf'
  end.

Definition bmp_grayscale (image : option BMPImage) : outcome (option BMPImage) :=
  match image with
  | None => Ret None
  | Some im =>
    match data im with
    | None => Ret image
    | Some buf =>
      let bound := to_int (height im * width im) in
      buf' ← grayscale_loop (Z.to_nat bound) 0 buf;
      Ret (Some (mkImage (width im) (height im) (Some buf')))
    end
  end.

(** ** The invert filter *)

(** The body of the invert loop on one pixel: each channel is promoted to
    [int], subtracted from 255 and stored back in its [uint8_t]. *)
Definition invert_pixel (p : Pixel) : Pixel :=
  mkPixel (byte.of_Z (to_u8 (255 - byte.unsigned (blue p))))
          (byte.of_Z (to_u8 (255 - byte.unsigned (green p))))
          (byte.of_Z (to_u8 (255 - byte.unsigned (red p)))).

(** [n] iterations of the inner loop of [bmp_invert], from column [j] of
    row [i]. *)
Fixpoint invert_cols (n : nat) (j i : Z) (image : BMPImage) (buf : list Pixel)
  : outcome (list Pixel) :=
  match n with
  | O => Ret buf
  | S n' =>
    let index := to_int (to_int (i * width image) + j) in
    p ← array_get buf index;
    buf' ← array_set buf index (invert_pixel p);
    invert_cols n' (j + 1) i image buf'
  end.

Fixpoint invert_rows (n : nat) (i : Z) (image : BMPImage) (buf : list Pixel)
  : outcome (list Pixel) :=
  match n with
  | O => Ret buf
  | S n' =>
    buf' ← invert_cols (Z.to_nat (width image)) 0 i image buf;
    invert_rows n' (i + 1) image buf'
  end.

Definition bmp_invert (image : option BMPImage) : outcome (option BMPImage) :=
  match image with
  | None => Ret None
  | Some im =>
    match data im with
    | None => Ret image
    | Some buf =>
      buf' ← invert_rows (Z.to_nat (height im)) 0 im buf;
      Ret (Some (mkImage (width im) (height im) (Some buf')))
    end
  end.

(** ** The world: files, allocator, uninitialised memory *)

(** [files] maps a path to the content of the file there; a path in [locked]
    cannot be opened for writing.  [heap_avail] is the number of bytes the
    allocator can still hand out: [malloc] succeeds exactly when the request
    fits.  [junk k] is the byte found at offset [k] of an object that was
    never written.  [open_streams] counts the streams opened and not yet
    closed. *)
Record world : Type := mkWorld {
  files : gmap string (list byte);
  locked : gset string;
  heap_avail : Z;
  junk : nat → byte;
  open_streams : nat
}.

Definition set_files (f : gmap string (list byte)) (w : world) : world :=
  mkWorld f (locked w) (heap_avail w) (junk w) (open_streams w).
Definition set_heap_avail (a : Z) (w : world) : world :=
  mkWorld (files w) (locked w) a (junk w) (open_streams w).
Definition set_open_streams (n : nat) (w : world) : world :=
  mkWorld (files w) (locked w) (heap_avail w) (junk w) n.

(** Computations that read and change the world, or go wrong. *)
Definition io (A : Type) : Type := world → outcome (A * world).

#[global] Instance io_ret : MRet io := fun A a w => Ret (a, w).
#[global] Instance io_bind : MBind io := fun A B k m w =>
  match m w with
  | Ret (a, w') => k a w'
  | Undef f => Undef f
  end.

Definition lift {A : Type} (o : outcome A) : io A := fun w =>
  match o with
  | Ret a => Ret (a, w)
  | Undef f => Undef f
  end.

(** *** Memory as bytes *)

Definition bytes_of_pixel (p : Pixel) : list byte := [blue p; green p; red p].

Definition bytes_of_pixels (l : list Pixel) : list byte :=
  flat_map bytes_of_pixel l.

Fixpoint pixels_of_bytes (bs : list byte) : list Pixel :=
  match bs with
  | b :: g :: r :: rest => mkPixel b g r :: pixels_of_bytes rest
  | _ => []
  end.

Definition uninit_bytes (n : nat) (w : world) : list byte :=
  map (junk w) (seq 0 n).

(** *** The allocator *)

(** [malloc(size)]: [true] when a block was handed out. *)
Definition malloc (size : Z) : io bool := fun w =>
  if size <=? heap_avail w
  then Ret (true, set_heap_avail (heap_avail w - size) w)
  else Ret (false, w).

(** [(Pixel* )malloc(size)]: the block, seen as the pixels that fit in it. *)
Definition malloc_pixels (size : Z) : io (option (list Pixel)) := fun w =>
  match malloc size w with
  | Ret (true, w') => Ret (Some (pixels_of_bytes (uninit_bytes (Z.to_nat size) w)), w')
  | Ret (false, w') => Ret (None, w')
  | Undef f => Undef f
  end.

Definition free (size : Z) : io unit := fun w =>
  Ret (tt, set_heap_avail (heap_avail w + size) w).

Definition free_pixels (buf : list Pixel) : io unit :=
  free (sizeof_Pixel * Z.of_nat (length buf)).

(** ** Rotation *)

(** The inner loop of [bmp_rotate_right]: [n] iterations from column [j] of
    row [i]; [nd] is the block behind [new_data]. *)
Fixpoint rotate_cols (n : nat) (j i : Z) (im : BMPImage) (buf : list Pixel)
    (new_width : Z) (nd : list Pixel) : outcome (list Pixel) :=
  match n with
  | O => Ret nd
  | S n' =>
    let new_index :=
      to_int (to_int (j * new_width) + to_int (to_int (height im - 1) - i)) in
    let old_index := to_int (to_int (i * width im) + j) in
    p ← array_get buf old_index;
    nd' ← array_set nd new_index p;
    rotate_cols n' (j + 1) i im buf new_width nd'
  end.

Fixpoint rotate_rows (n : nat) (i : Z) (im : BMPImage) (buf : list Pixel)
    (new_width : Z) (nd : list Pixel) : outcome (list Pixel) :=
  match n with
  | O => Ret nd
  | S n' =>
    nd' ← rotate_cols (Z.to_nat (width im)) 0 i im buf new_width nd;
    rotate_rows n' (i + 1) im buf new_width nd'
  end.

Definition bmp_rotate_right (image : option BMPImage) : io (option BMPImage) :=
  match image with
  | None => mret None
  | Some im =>
    match data im with
    | None => mret image
    | Some buf =>
      let new_height := width im in
      let new_width := height im in
      new_data ← malloc_pixels
        (to_size (to_size (to_int (new_width * new_height)) * sizeof_Pixel));
      match new_data with
      | None => mret image
      | Some nd =>
        nd' ← lift (rotate_rows (Z.to_nat (height im)) 0 im buf new_width nd);
        _ ← free_pixels buf;
        mret (Some (mkImage new_width new_height (Some nd')))
      end
    end
  end.

(** ** Horizontal flip *)

(** The inner loop of [bmp_flip_horizontal]: [n] iterations from column
    [j] of row [i]. *)
Fixpoint flip_cols (n : nat) (j i : Z) (im : BMPImage) (buf nd : list Pixel)
  : outcome (list Pixel) :=
  match n with
  | O => Ret nd
  | S n' =>
    let new_index :=
      to_int (to_int (i * width im) + to_int (to_int (width im - 1) - j)) in
    let old_index := to_int (to_int (i * width im) + j) in
    p ← array_get buf old_index;
    nd' ← array_set nd new_index p;
    flip_cols n' (j + 1) i im buf nd'
  end.

Fixpoint flip_rows (n : nat) (i : Z) (im : BMPImage) (buf nd : list Pixel)
  : outcome (list Pixel) :=
  match n with
  | O => Ret nd
  | S n' =>
    nd' ← flip_cols (Z.to_nat (width im)) 0 i im buf nd;
    flip_rows n' (i + 1) im buf nd'
  end.

Definition bmp_flip_horizontal (image : option BMPImage) : io (option BMPImage) :=
  match image with
  | None => mret None
  | Some im =>
    match data im with
    | None => mret image
    | Some buf =>
      new_data ← malloc_pixels
        (to_size (to_size (to_int (width im * height im)) * sizeof_Pixel));
      match new_data with
      | None => mret image
      | Some nd =>
        nd' ← lift (flip_rows (Z.to_nat (height im)) 0 im buf nd);
        _ ← free_pixels buf;
        mret (Some (mkImage (width im) (height im) (Some nd')))
      end
    end
  end.

(** ** Streams *)

(** An open stream: the path it was opened on and its position.  A
    [FILE*] is [None] when [fopen] failed. *)
Record FILE : Type := mkFILE { fpath : string; fpos : Z }.

Inductive whence : Type := SEEK_SET | SEEK_CUR.

(** [fopen(filename, "rb")]. *)
Definition fopen_read (filename : string) : io (option FILE) := fun w =>
  match files w !! filename with
  | Some _ => Ret (Some (mkFILE filename 0), set_open_streams (S (open_streams w)) w)
  | None => Ret (None, w)
  end.

(** [fopen(filename, "wb")]: the file is created or truncated. *)
Definition fopen_write (filename : string) : io (option FILE) := fun w =>
  if decide (filename ∈ locked w) then Ret (None, w)
  else Ret (Some (mkFILE filename 0),
            set_open_streams (S (open_streams w))
              (set_files (<[filename := []]> (files w)) w)).

Definition fclose (stream : option FILE) : io unit := fun w =>
  match stream with
  | None => Undef NullStream
  | Some _ => Ret (tt, set_open_streams (pred (open_streams w)) w)
  end.

(** [fread(ptr, size, nmemb, stream)]: [dest] is the object behind [ptr], up
    to its end.  The bytes the file still has, at most [size * nmemb], are
    copied over the start of [dest]; a short file leaves the rest of [dest]
    as it was (the bytes of a last, partial element are stored too, as the
    common C libraries do). *)
Definition fread (dest : list byte) (size nmemb : Z) (stream : option FILE)
  : io (list byte * option FILE) := fun w =>
  match stream with
  | None => Undef NullStream
  | Some fp =>
    let content := default [] (files w !! fpath fp) in
    let got := take (Z.to_nat (size * nmemb)) (drop (Z.to_nat (fpos fp)) content) in
    if (length dest <? length got)%nat then Undef OutOfBounds
    else Ret ((got ++ drop (length got) dest,
               Some (mkFILE (fpath fp) (fpos fp + Z.of_nat (length got)))), w)
  end.

(** [fwrite(ptr, 1, length src, stream)], [src] being the bytes at [ptr]. *)
Definition fwrite (src : list byte) (stream : option FILE) : io (option FILE) := fun w =>
  match stream with
  | None => Undef NullStream
  | Some fp =>
    let content := default [] (files w !! fpath fp) in
    let p := Z.to_nat (fpos fp) in
    let content' := take p content ++ src ++ drop (p + length src) content in
    Ret (Some (mkFILE (fpath fp) (fpos fp + Z.of_nat (length src))),
         set_files (<[fpath fp := content']> (files w)) w)
  end.

(** [fseek]: a seek to a negative position fails and leaves the stream. *)
Definition fseek (stream : option FILE) (offset : Z) (from : whence)
  : io (option FILE) := fun w =>
  match stream with
  | None => Undef NullStream
  | Some fp =>
    let target := match from with
                  | SEEK_SET => offset
                  | SEEK_CUR => fpos fp + offset
                  end in
    if target <? 0 then Ret (Some fp, w)
    else Ret (Some (mkFILE (fpath fp) target), w)
  end.

(** [fread(&data[index], sizeof(Pixel), nmemb, stream)]. *)
Definition fread_pixels (buf : list Pixel) (index nmemb : Z) (stream : option FILE)
  : io (list Pixel * option FILE) :=
  if (0 <=? index) && (index <=? Z.of_nat (length buf)) then
    let k := Z.to_nat index in
    '(region, stream') ← fread (bytes_of_pixels (drop k buf)) sizeof_Pixel nmemb stream;
    mret (take k buf ++ pixels_of_bytes region, stream')
  else
    '(_, stream') ← fread [] sizeof_Pixel nmemb stream;
    mret (buf, stream').

(** The bytes of [nmemb] pixels from [&data[index]], as [fwrite] reads them. *)
Definition pixel_bytes_at (data : option (list Pixel)) (index nmemb : Z)
  : outcome (list byte) :=
  if nmemb =? 0 then Ret []
  else match data with
       | None => Undef NullPointer
       | Some buf =>
         if (index <? 0) || (Z.of_nat (length buf) <? index + nmemb)
         then Undef OutOfBounds
         else Ret (bytes_of_pixels (take (Z.to_nat nmemb) (drop (Z.to_nat index) buf)))
       end.

(** ** The two headers *)

Record BMPFileHeader : Type := mkFileHeader {
  fh_type : Z;        (* uint16_t *)
  fh_size : Z;        (* uint32_t *)
  fh_reserved1 : Z;   (* uint16_t *)
  fh_reserved2 : Z;   (* uint16_t *)
  fh_offset : Z       (* uint32_t *)
}.

Record BMPInfoHeader : Type := mkInfoHeader {
  ih_size : Z;                (* uint32_t *)
  ih_width : Z;               (* int32_t *)
  ih_height : Z;              (* int32_t *)
  ih_planes : Z;              (* uint16_t *)
  ih_bit_count : Z;           (* uint16_t *)
  ih_compression : Z;         (* uint32_t *)
  ih_size_image : Z;          (* uint32_t *)
  ih_x_pixels_per_meter : Z;  (* int32_t *)
  ih_y_pixels_per_meter : Z;  (* int32_t *)
  ih_colors_used : Z;         (* uint32_t *)
  ih_colors_important : Z     (* uint32_t *)
}.

Definition sizeof_BMPFileHeader : Z := 14.
Definition sizeof_BMPInfoHeader : Z := 40.

(** The object representation of the packed structs on a little-endian
    machine. *)
Definition file_header_bytes (fh : BMPFileHeader) : list byte :=
  le_split 2 (fh_type fh) ++ le_split 4 (fh_size fh)
  ++ le_split 2 (fh_reserved1 fh) ++ le_split 2 (fh_reserved2 fh)
  ++ le_split 4 (fh_offset fh).

Definition info_header_bytes (ih : BMPInfoHeader) : list byte :=
  le_split 4 (ih_size ih) ++ le_split 4 (ih_width ih) ++ le_split 4 (ih_height ih)
  ++ le_split 2 (ih_planes ih) ++ le_split 2 (ih_bit_count ih)
  ++ le_split 4 (ih_compression ih) ++ le_split 4 (ih_size_image ih)
  ++ le_split 4 (ih_x_pixels_per_meter ih) ++ le_split 4 (ih_y_pixels_per_meter ih)
  ++ le_split 4 (ih_colors_used ih) ++ le_split 4 (ih_colors_important ih).

(** The unsigned field of [n] bytes at offset [o] of an object. *)
Definition field (o n : nat) (bs : list byte) : Z := le_combine (take n (drop o bs)).

Definition file_header_of_bytes (bs : list byte) : BMPFileHeader :=
  mkFileHeader (field 0 2 bs) (field 2 4 bs) (field 6 2 bs) (field 8 2 bs)
               (field 10 4 bs).

Definition info_header_of_bytes (bs : list byte) : BMPInfoHeader :=
  mkInfoHeader (field 0 4 bs) (to_int (field 4 4 bs)) (to_int (field 8 4 bs))
               (field 12 2 bs) (field 14 2 bs) (field 16 4 bs) (field 20 4 bs)
               (to_int (field 24 4 bs)) (to_int (field 28 4 bs))
               (field 32 4 bs) (field 36 4 bs).

(** ** The codec *)

(** [if (err_out) *err_out = e;]: the cell behind [err_out] after the
    statement ([None] for a null [err_out]). *)
Definition set_err (err_out : option BMPError) (e : BMPError) : option BMPError :=
  match err_out with
  | Some _ => Some e
  | None => None
  end.

(** An automatic variable of [n] bytes, not yet written. *)
Definition alloca (n : Z) : io (list byte) := fun w =>
  Ret (uninit_bytes (Z.to_nat n) w, w).

(** [n] iterations of the row loop of [bmp_load], from row [i]. *)
Fixpoint load_rows (n : nat) (i : Z) (img : BMPImage) (padding : Z)
    (buf : list Pixel) (filepath : option FILE) : io (list Pixel * option FILE) :=
  match n with
  | O => mret (buf, filepath)
  | S n' =>
    '(buf', filepath) ←
      fread_pixels buf (to_int (i * width img)) (to_size (width img)) filepath;
    filepath ← fseek filepath padding SEEK_CUR;
    load_rows n' (i + 1) img padding buf' filepath
  end.

(** The result pairs the returned pointer with the cell behind [err_out]. *)
Definition bmp_load (filename : string) (err_out : option BMPError)
  : io (option BMPImage * option BMPError) :=
  filepath ← fopen_read filename;
  let err_out :=
    match filepath with
    | None => set_err err_out BMP_ERR_FILE_NOT_FOUND
    | Some _ => err_out
    end in
  fh ← alloca sizeof_BMPFileHeader;
  ih ← alloca sizeof_BMPInfoHeader;
  '(fh, filepath) ← fread fh sizeof_BMPFileHeader 1 filepath;
  '(ih, filepath) ← fread ih sizeof_BMPInfoHeader 1 filepath;
  let fh := file_header_of_bytes fh in
  let ih := info_header_of_bytes ih in
  if negb (fh_type fh =? 0x4D42) || negb (ih_bit_count ih =? 24) then
    _ ← fclose filepath;
    mret (None, set_err err_out BMP_ERR_INVALID_FORMAT)
  else
    img ← malloc sizeof_BMPImage;
    if negb img then lift (Undef NullPointer)
    else
      let img_height := to_int (Z.abs (ih_height ih)) in
      let img_width := ih_width ih in
      img_data ← malloc_pixels
        (to_size (to_size (to_int (img_height * img_width)) * sizeof_Pixel));
      match img_data with
      | None =>
        _ ← free sizeof_BMPImage;
        _ ← fclose filepath;
        mret (None, set_err err_out BMP_ERR_MALLOC_FAILED)
      | Some buf =>
        let img := mkImage img_width img_height (Some buf) in
        let padding := calculate_padding (width img) in
        filepath ← fseek filepath (fh_offset fh) SEEK_SET;
        '(buf', filepath) ←
          load_rows (Z.to_nat (height img)) 0 img padding buf filepath;
        _ ← fclose filepath;
        mret (Some (mkImage img_width img_height (Some buf')),
              set_err err_out BMP_SUCCESS)
      end.

Definition padding_bytes : list byte := [Byte.x00; Byte.x00; Byte.x00].

(** The first [n] bytes of the object [obj], as [fwrite] reads them. *)
Definition bytes_at (obj : list byte) (n : Z) : outcome (list byte) :=
  if Z.of_nat (length obj) <? n then Undef OutOfBounds
  else Ret (take (Z.to_nat n) obj).

(** [n] iterations of the row loop of [bmp_save], from row [i]. *)
Fixpoint save_rows (n : nat) (i : Z) (image : BMPImage) (padding : Z)
    (filepath : option FILE) : io (option FILE) :=
  match n with
  | O => mret filepath
  | S n' =>
    row ← lift (pixel_bytes_at (data image) (to_int (i * width image))
                               (to_size (width image)));
    filepath ← fwrite row filepath;
    pad ← lift (bytes_at padding_bytes (to_size padding));
    filepath ← fwrite pad filepath;
    save_rows n' (i + 1) image padding filepath
  end.

Definition bmp_save (image : option BMPImage) (filename : string) : io BMPError :=
  filepath ← fopen_write filename;
  match filepath with
  | None => mret BMP_ERR_FILE_NOT_FOUND
  | Some _ =>
    match image with
    | None => lift (Undef NullPointer)
    | Some im =>
      let padding := calculate_padding (width im) in
      let image_size :=
        to_u32 (to_size (to_size (to_size (to_size (width im) * sizeof_Pixel)
                                  + to_size padding)
                         * to_size (height im))) in
      let fh := mkFileHeader 0x4D42
                  (to_u32 (to_size (sizeof_BMPFileHeader + sizeof_BMPInfoHeader
                                    + image_size)))
                  0 0 54 in
      let ih := mkInfoHeader 40 (width im) (height im) 1 24 0 image_size
                             2835 2835 0 0 in
      filepath ← fwrite (file_header_bytes fh) filepath;
      filepath ← fwrite (info_header_bytes ih) filepath;
      filepath ← save_rows (Z.to_nat (height im)) 0 im padding filepath;
      _ ← fclose filepath;
      mret BMP_SUCCESS
    end
  end.

(** [bmp_free]: the pixel block, when there is one, then the struct. *)
Definition bmp_free (image : option BMPImage) : io unit :=
  match image with
  | None => mret tt
  | Some im =>
    _ ← match data im with
        | Some buf => free_pixels buf
        | None => mret tt
        end;
    free sizeof_BMPImage
  end.

(** ** The test program of [test_main.c] *)

Definition newline : string := String (Ascii.ascii_of_nat 10) EmptyString.

(** The value of a [BMPError] as [printf] with [%d] shows it. *)
Definition error_code (e : BMPError) : Z :=
  match e with
  | BMP_SUCCESS => 0
  | BMP_ERR_FILE_NOT_FOUND => 1
  | BMP_ERR_INVALID_FORMAT => 2
  | BMP_ERR_MALLOC_FAILED => 3
  end.

(** [printf]: [out] is what standard output has received so far, one
    entry per call. *)
Definition printf (text : string) (out : list string) : list string :=
  out ++ [text].

(** [img->field] for a pointer the program does not test. *)
Definition deref (img : option BMPImage) : outcome BMPImage :=
  match img with
  | Some im => Ret im
  | None => Undef NullPointer
  end.

(** [main]: [err] is the indeterminate first value of the local [err];
    the result pairs the exit code with standard output.  After
    [bmp_load], [img] stands for the struct behind the pointer. *)
Definition main (err : BMPError) : io (Z * list string) :=
  let out := printf ("--- BMP Library Test Suite Started ---" +:+ newline) [] in
  let out := printf "[1/5] Loading image (assets/airplane.bmp)... " out in
  '(img, cell) ← bmp_load "assets/airplane.bmp" (Some err);
  let err := default err cell in
  match img with
  | None =>
    let out := printf ("FAILED! Error Code: " +:+ pretty (error_code err) +:+ newline)
                      out in
    let out := printf ("Please ensure 'assets/airplane.bmp' exists and is a 24-bit BMP file."
                       +:+ newline) out in
    mret (1, out)
  | Some im =>
    let out := printf ("Success! (" +:+ pretty (width im) +:+ "x"
                       +:+ pretty (height im) +:+ ")" +:+ newline) out in
    let out := printf "[2/5] Applying filters (Grayscale & Invert)... " out in
    img ← lift (bmp_grayscale img);
    img ← lift (bmp_invert img);
    let out := printf ("Done." +:+ newline) out in
    let out := printf "[3/5] Applying transformations (Rotate & Flip)... " out in
    img ← bmp_rotate_right img;
    img ← bmp_flip_horizontal img;
    im ← lift (deref img);
    let out := printf ("Done. New dimensions: " +:+ pretty (width im) +:+ "x"
                       +:+ pretty (height im) +:+ newline) out in
    let out := printf "[4/5] Saving processed image (test_output.bmp)... " out in
    err ← bmp_save img "test_output.bmp";
    let out :=
      match err with
      | BMP_SUCCESS => printf ("Success!" +:+ newline) out
      | _ => printf ("FAILED! Error Code: " +:+ pretty (error_code err) +:+ newline) out
      end in
    let out := printf "[5/5] Freeing allocated memory... " out in
    _ ← bmp_free img;
    let out := printf ("Done." +:+ newline) out in
    let out := printf (newline +:+ "--- Test Suite Completed Successfully! ---"
                       +:+ newline) out in
    let out := printf ("You can now check for memory leaks using: valgrind --leak-check=full ./test_app"
                       +:+ newline) out in
    mret (0, out)
  end.

(** ** The format, in the words of its description *)

(** The truncating average of the three channels. *)
Definition average (p : Pixel) : Z :=
  (byte.unsigned (red p) + byte.unsigned (green p) + byte.unsigned (blue p)) / 3.


(** The padding formula in the words of the format description. *)
Definition row_padding (w : Z) : Z := (4 - (w * 3) mod 4) mod 4.

(** [n] rows of [w] pixels taken from [buf], each followed by [pad] zero
    bytes. *)
Fixpoint padded_rows (w pad : nat) (buf : list Pixel) (n : nat) : list byte :=
  match n with
  | O => []
  | S n' =>
    bytes_of_pixels (take w buf) ++ replicate pad Byte.x00
      ++ padded_rows w pad (drop w buf) n'
  end.

(** The pixels of [n] rows of [w] pixels stored in [c] from offset [pos]
    on, consecutive rows [stride] bytes apart. *)
Fixpoint stored_rows (w stride : nat) (c : list byte) (pos : nat) (n : nat)
  : list Pixel :=
  match n with
  | O => []
  | S n' =>
    pixels_of_bytes (take (3 * w) (drop pos c))
      ++ stored_rows w stride c (pos + stride) n'
  end.

(** The two headers [bmp_save] writes for an image. *)
Definition saved_headers (im : BMPImage) : list byte :=
  let image_size := to_u32 ((width im * 3 + row_padding (width im)) * height im) in
  file_header_bytes (mkFileHeader 0x4D42 (to_u32 (54 + image_size)) 0 0 54)
  ++ info_header_bytes
       (mkInfoHeader 40 (width im) (height im) 1 24 0 image_size 2835 2835 0 0).

(** The whole file: headers, then the rows of the buffer in buffer order. *)
Definition saved_file (im : BMPImage) (buf : list Pixel) : list byte :=
  saved_headers im
  ++ padded_rows (Z.to_nat (width im)) (Z.to_nat (row_padding (width im)))
       buf (Z.to_nat (height im)).

(** The file of [saved_file] with the height field negated, the mark of
    a bitmap stored top-down. *)
Definition top_down_file (im : BMPImage) (buf : list Pixel) : list byte :=
  saved_headers (mkImage (width im) (- height im) (data im))
  ++ padded_rows (Z.to_nat (width im)) (Z.to_nat (row_padding (width im)))
       buf (Z.to_nat (height im)).

(** A bitmap file whose pixel rows start after [gap], extra bytes between
    the headers and the rows; the offset field says where. *)
Definition gapped_file (im : BMPImage) (buf : list Pixel) (gap : list byte)
  : list byte :=
  file_header_bytes (mkFileHeader 0x4D42 0 0 0 (54 + Z.of_nat (length gap)))
  ++ info_header_bytes
       (mkInfoHeader 40 (width im) (height im) 1 24 0 0 2835 2835 0 0)
  ++ gap
  ++ padded_rows (Z.to_nat (width im)) (Z.to_nat (row_padding (width im)))
       buf (Z.to_nat (height im)).

(** ** Well-formed images and concrete inputs *)

(** The invariant of the data model: a buffer of exactly [width * height]
    pixels behind [data], positive dimensions, and a pixel count that the
    [int] indices of the code can express. *)
Definition well_formed (im : BMPImage) (buf : list Pixel) : Prop :=
  data im = Some buf ∧ 0 < width im ∧ 0 < height im
  ∧ Z.of_nat (length buf) = width im * height im
  ∧ width im * height im <= INT_MAX.

Module Sample.

Definition px (b g r : Z) : Pixel := mkPixel (byte.of_Z b) (byte.of_Z g) (byte.of_Z r).

Definition p0 : Pixel := px 10 20 30.
Definition p1 : Pixel := px 40 50 60.
Definition p2 : Pixel := px 70 80 90.
Definition p3 : Pixel := px 100 110 120.

(** The 2x2 image of the end-to-end example. *)
Definition img22 : BMPImage := mkImage 2 2 (Some [p0; p1; p2; p3]).

(** One row of three pixels: its rows carry three bytes of padding. *)
Definition img31 : BMPImage := mkImage 3 1 (Some [p0; p1; p2]).

(** A world with no file, 4096 bytes of heap and 0xAA in fresh memory. *)
Definition w0 : world := mkWorld ∅ ∅ 4096 (fun _ => Byte.xaa) 0.

(** A world where [img31] has been saved as "image.bmp". *)
Definition w_saved : world :=
  mkWorld {[ "image.bmp" := saved_file img31 [p0; p1; p2] ]} ∅ 4096
          (fun _ => Byte.xaa) 0.

(** A world with no file and only 8 bytes of heap left. *)
Definition w_full : world := mkWorld ∅ ∅ 8 (fun _ => Byte.xaa) 0.

(** A world where "image.bmp" cannot be opened for writing. *)
Definition w_locked : world :=
  mkWorld ∅ {[ "image.bmp" ]} 4096 (fun _ => Byte.xaa) 0.

(** [w_saved] with 20 bytes of heap: room for the struct, not for the
    pixels. *)
Definition w_tight : world :=
  mkWorld {[ "image.bmp" := saved_file img31 [p0; p1; p2] ]} ∅ 20
          (fun _ => Byte.xaa) 0.

(** [w_saved] with 8 bytes of heap: no room for the struct. *)
Definition w_exhausted : world :=
  mkWorld {[ "image.bmp" := saved_file img31 [p0; p1; p2] ]} ∅ 8
          (fun _ => Byte.xaa) 0.

(** A world whose "image.bmp" stops after the headers of [img31]. *)
Definition w_headers_only : world :=
  mkWorld {[ "image.bmp" := saved_headers img31 ]} ∅ 4096 (fun _ => Byte.xaa) 0.

(** A world whose "image.bmp" is [img22] with a negated height field. *)
Definition w_top_down : world :=
  mkWorld {[ "image.bmp" := top_down_file img22 [p0; p1; p2; p3] ]} ∅ 4096
          (fun _ => Byte.xaa) 0.

(** Worlds for the test program: an input that is no bitmap, and [img31]
    saved as the input. *)
Definition w_main_bad : world :=
  mkWorld {[ "assets/airplane.bmp" := [Byte.x58; Byte.x58] ]} ∅ 4096
          (fun _ => Byte.xaa) 0.
Definition w_main : world :=
  mkWorld {[ "assets/airplane.bmp" := saved_file img31 [p0; p1; p2] ]} ∅ 4096
          (fun _ => Byte.xaa) 0.

(** A world whose "image.bmp" holds [img22] after a gap of two bytes. *)
Definition w_gapped : world :=
  mkWorld {[ "image.bmp" := gapped_file img22 [p0; p1; p2; p3] [Byte.x01; Byte.x02] ]}
          ∅ 4096 (fun _ => Byte.xaa) 0.

(** A world whose only file holds the two bytes 'X','X'. *)
Definition w_bad : world :=
  mkWorld {[ "bad.bmp" := [Byte.x58; Byte.x58] ]} ∅ 4096 (fun _ => Byte.xaa) 0.

End Sample.

(** * Properties *)

(** ** Integers *)

Lemma to_int_id (z : Z) : INT_MIN <= z <= INT_MAX → to_int z = z.
Proof.
  unfold INT_MIN, INT_MAX, to_int. intros Hz.
  rewrite Z.mod_small by lia. lia.
Qed.

Lemma to_size_id (z : Z) : 0 <= z < 2 ^ 64 → to_size z = z.
Proof. intros Hz. unfold to_size. now rewrite Z.mod_small. Qed.

Lemma to_u8_id (z : Z) : 0 <= z < 256 → to_u8 z = z.
Proof. intros Hz. unfold to_u8. rewrite Z.mod_small; lia. Qed.

Lemma byte_unsigned_of_Z_small (z : Z) :
  0 <= z < 256 → byte.unsigned (byte.of_Z z) = z.
Proof.
  intros Hz. rewrite byte.unsigned_of_Z. unfold byte.wrap.
  rewrite Z.mod_small; lia.
Qed.

(** ** Padding *)

Lemma padding_law (w : Z) :
  let p := (4 - (w * 3) mod 4) mod 4 in
  0 <= p <= 3 ∧ (w * 3 + p) mod 4 = 0.
Proof.
  intros p. subst p.
  pose proof (Z.mod_pos_bound (4 - (w * 3) mod 4) 4 ltac:(lia)) as Hp.
  split; [lia|].
  rewrite Z.add_mod, Z.mod_mod by lia.
  rewrite <- Z.add_mod by lia.
  replace (w * 3 + (4 - (w * 3) mod 4)) with (1 * 4 + (w * 3 - (w * 3) mod 4)) by lia.
  rewrite Z.add_mod, Z.mod_same, Z.add_0_l, Z.mod_mod by lia.
  rewrite Zminus_mod_idemp_r. rewrite Z.sub_diag. reflexivity.
Qed.

(** ** Arrays *)

Lemma array_get_lookup {A : Type} (buf : list A) (i : Z) (x : A) :
  0 <= i → buf !! Z.to_nat i = Some x → array_get buf i = Ret x.
Proof.
  intros Hi Hx. unfold array_get.
  destruct (Z.ltb_spec i 0); [lia|]. now rewrite Hx.
Qed.

Lemma array_set_insert {A : Type} (buf : list A) (i : Z) (x : A) :
  0 <= i < Z.of_nat (length buf) →
  array_set buf i x = Ret (<[Z.to_nat i := x]> buf).
Proof.
  intros Hi. unfold array_set.
  destruct (Z.ltb_spec i 0); [lia|].
  destruct (Z.leb_spec (Z.of_nat (length buf)) i); [lia|]. reflexivity.
Qed.

Lemma out_of_range_true (im : BMPImage) (x y : Z) :
  x < 0 ∨ width im <= x ∨ y < 0 ∨ height im <= y → out_of_range im x y = true.
Proof.
  intros Hxy. unfold out_of_range.
  destruct (Z.ltb_spec x 0); [reflexivity|].
  destruct (Z.geb_spec x (width im)); [reflexivity|].
  destruct (Z.ltb_spec y 0); [reflexivity|].
  destruct (Z.geb_spec y (height im)); [reflexivity|]. lia.
Qed.

Lemma out_of_range_false (im : BMPImage) (x y : Z) :
  0 <= x < width im → 0 <= y < height im → out_of_range im x y = false.
Proof.
  intros Hx Hy. unfold out_of_range.
  destruct (Z.ltb_spec x 0); [lia|].
  destruct (Z.geb_spec x (width im)); [lia|].
  destruct (Z.ltb_spec y 0); [lia|].
  destruct (Z.geb_spec y (height im)); [lia|]. reflexivity.
Qed.

(** The index computation of the pixel accessors does not wrap. *)
Lemma pixel_index (im : BMPImage) (x y : Z) :
  0 <= x < width im → 0 <= y → y * width im + x <= INT_MAX →
  to_int (to_int (y * width im) + x) = y * width im + x.
Proof.
  intros Hx Hy Hmax.
  assert (0 <= y * width im) by nia.
  rewrite (to_int_id (y * width im)) by (unfold INT_MIN, INT_MAX in *; lia).
  apply to_int_id. unfold INT_MIN, INT_MAX in *. lia.
Qed.

(** ** Pixel access *)

Lemma bmp_get_pixel_inside (im : BMPImage) (buf : list Pixel) (x y : Z) (p : Pixel) :
  data im = Some buf → 0 <= x < width im → 0 <= y < height im →
  y * width im + x <= INT_MAX →
  buf !! Z.to_nat (y * width im + x) = Some p →
  bmp_get_pixel (Some im) x y = Ret p.
Proof.
  intros Hdata Hx Hy Hmax Hp.
  assert (0 <= y * width im) by nia.
  unfold bmp_get_pixel. rewrite Hdata.
  rewrite (out_of_range_false im x y Hx Hy). cbv zeta.
  rewrite (pixel_index im x y) by lia.
  apply array_get_lookup; [lia|done].
Qed.

Lemma bmp_set_pixel_inside (im : BMPImage) (buf : list Pixel) (x y : Z) (color : Pixel) :
  data im = Some buf → 0 <= x < width im → 0 <= y < height im →
  y * width im + x <= INT_MAX →
  (Z.to_nat (y * width im + x) < length buf)%nat →
  bmp_set_pixel (Some im) x y color =
    Ret (Some (mkImage (width im) (height im)
                 (Some (<[Z.to_nat (y * width im + x) := color]> buf)))).
Proof.
  intros Hdata Hx Hy Hmax Hlen.
  assert (0 <= y * width im) by nia.
  unfold bmp_set_pixel. rewrite Hdata.
  rewrite (out_of_range_false im x y Hx Hy). cbv zeta.
  rewrite (pixel_index im x y) by lia.
  rewrite array_set_insert by lia. reflexivity.
Qed.

(** C6: for every image and every coordinate pair outside the image
    ([x < 0], [x >= width], [y < 0] or [y >= height]), [bmp_get_pixel]
    returns the black pixel (0,0,0) and [bmp_set_pixel] leaves the image
    (buffer, width and height) as it was.  For a pair inside the image the
    accessed element is the one at index [y * width + x]: [bmp_get_pixel]
    returns it and [bmp_set_pixel] overwrites it. *)
Theorem bmp_pixel_access_bounds (im : BMPImage) (x y : Z) (color : Pixel) :
  (x < 0 ∨ width im <= x ∨ y < 0 ∨ height im <= y →
     bmp_get_pixel (Some im) x y = Ret black
     ∧ bmp_set_pixel (Some im) x y color = Ret (Some im))
  ∧ (∀ buf : list Pixel,
       data im = Some buf → 0 <= x < width im → 0 <= y < height im →
       y * width im + x <= INT_MAX →
       (∀ p, buf !! Z.to_nat (y * width im + x) = Some p →
             bmp_get_pixel (Some im) x y = Ret p)
       ∧ ((Z.to_nat (y * width im + x) < length buf)%nat →
          bmp_set_pixel (Some im) x y color =
            Ret (Some (mkImage (width im) (height im)
                         (Some (<[Z.to_nat (y * width im + x) := color]> buf)))))).
Proof.
  split.
  - intros Hout. unfold bmp_get_pixel, bmp_set_pixel.
    destruct (data im) as [buf|]; [|done].
    now rewrite (out_of_range_true im x y Hout).
  - intros buf Hdata Hx Hy Hmax. split.
    + intros p Hp. now apply (bmp_get_pixel_inside im buf).
    + intros Hlen. now apply bmp_set_pixel_inside.
Qed.

Lemma bmp_pixel_access_bounds_witness :
  bmp_get_pixel (Some Sample.img22) (-1) 0 = Ret black
  ∧ bmp_set_pixel (Some Sample.img22) 2 0 Sample.p3 = Ret (Some Sample.img22)
  ∧ bmp_get_pixel (Some Sample.img22) 1 1 = Ret Sample.p3
  ∧ bmp_set_pixel (Some Sample.img22) 0 1 Sample.p0 =
      Ret (Some (mkImage 2 2 (Some [Sample.p0; Sample.p1; Sample.p0; Sample.p3]))).
Proof.
  split; [|split; [|split]].
  - apply (bmp_pixel_access_bounds Sample.img22 (-1) 0 black). left. lia.
  - apply (bmp_pixel_access_bounds Sample.img22 2 0 Sample.p3). right. left. simpl. lia.
  - apply (proj2 (bmp_pixel_access_bounds Sample.img22 1 1 black)
             [Sample.p0; Sample.p1; Sample.p2; Sample.p3]);
      [reflexivity | simpl; lia | simpl; lia | vm_compute; discriminate | reflexivity].
  - apply (proj2 (bmp_pixel_access_bounds Sample.img22 0 1 Sample.p0)
             [Sample.p0; Sample.p1; Sample.p2; Sample.p3]);
      [reflexivity | simpl; lia | simpl; lia | vm_compute; discriminate | simpl; lia].
Defined.

(** C9: when the image pointer is null or the pixel buffer is null,
    [bmp_get_pixel] returns the black pixel (0,0,0) for every coordinate
    pair and [bmp_set_pixel] changes nothing, for every coordinate pair
    and colour. *)
Theorem bmp_pixel_access_null (x y : Z) (color : Pixel) (w h : Z) :
  bmp_get_pixel None x y = Ret black
  ∧ bmp_set_pixel None x y color = Ret None
  ∧ bmp_get_pixel (Some (mkImage w h None)) x y = Ret black
  ∧ bmp_set_pixel (Some (mkImage w h None)) x y color = Ret (Some (mkImage w h None)).
Proof. repeat split. Qed.

(** C10: for every well-formed image and every coordinate pair inside it,
    [bmp_set_pixel] changes only the buffer element at index
    [y * width + x]: width, height and every other pixel stay, and
    [bmp_get_pixel] at [(x, y)] then returns the written colour. *)
Theorem bmp_set_pixel_frame (im : BMPImage) (buf : list Pixel) (x y : Z) (color : Pixel) :
  well_formed im buf → 0 <= x < width im → 0 <= y < height im →
  ∃ buf' : list Pixel,
    let im' := mkImage (width im) (height im) (Some buf') in
    bmp_set_pixel (Some im) x y color = Ret (Some im')
    ∧ length buf' = length buf
    ∧ buf' !! Z.to_nat (y * width im + x) = Some color
    ∧ (∀ k : nat, k ≠ Z.to_nat (y * width im + x) → buf' !! k = buf !! k)
    ∧ bmp_get_pixel (Some im') x y = Ret color.
Proof.
  intros (Hdata & Hw & Hh & Hlen & Hmax) Hx Hy.
  assert (0 <= y * width im) by nia.
  assert (y * width im + x < width im * height im) by nia.
  set (k0 := Z.to_nat (y * width im + x)).
  assert (Hin : (k0 < length buf)%nat) by (subst k0; lia).
  exists (<[k0 := color]> buf). cbv zeta.
  split; [|split; [|split; [|split]]].
  - apply bmp_set_pixel_inside; [done..|lia|done].
  - apply length_insert.
  - now apply list_lookup_insert_eq.
  - intros k Hk. now apply list_lookup_insert_ne.
  - apply (bmp_get_pixel_inside _ (<[k0 := color]> buf)); simpl; [done..|lia|].
    now apply list_lookup_insert_eq.
Qed.

Lemma bmp_set_pixel_frame_witness :
  ∃ buf' : list Pixel,
    let im' := mkImage 2 2 (Some buf') in
    bmp_set_pixel (Some Sample.img22) 1 0 Sample.p3 = Ret (Some im')
    ∧ length buf' = 4%nat
    ∧ buf' !! 1%nat = Some Sample.p3
    ∧ (∀ k : nat, k ≠ 1%nat → buf' !! k = [Sample.p0; Sample.p1; Sample.p2; Sample.p3] !! k)
    ∧ bmp_get_pixel (Some im') 1 0 = Ret Sample.p3.
Proof.
  apply (bmp_set_pixel_frame Sample.img22
           [Sample.p0; Sample.p1; Sample.p2; Sample.p3] 1 0 Sample.p3).
  - repeat split; vm_compute; congruence.
  - simpl; lia.
  - simpl; lia.
Defined.

(** ** Grayscale *)

Lemma average_range (p : Pixel) : 0 <= average p < 256.
Proof.
  unfold average.
  pose proof (byte.unsigned_range (red p)).
  pose proof (byte.unsigned_range (green p)).
  pose proof (byte.unsigned_range (blue p)).
  split.
  - apply Z.div_pos; lia.
  - apply Z.div_lt_upper_bound; lia.
Qed.

Lemma gray_channels (p : Pixel) :
  byte.unsigned (red (gray p)) = average p
  ∧ byte.unsigned (green (gray p)) = average p
  ∧ byte.unsigned (blue (gray p)) = average p.
Proof.
  pose proof (average_range p) as Ha.
  unfold gray. fold (average p). simpl.
  rewrite (to_u8_id (average p)) by lia.
  rewrite byte_unsigned_of_Z_small by lia. done.
Qed.

Lemma gray_idem (p : Pixel) : gray (gray p) = gray p.
Proof.
  destruct (gray_channels p) as (Hr & Hg & Hb).
  unfold gray at 1. rewrite Hr, Hg, Hb.
  replace ((average p + average p + average p) / 3) with (average p)
    by (apply Z.div_unique with 0; lia).
  reflexivity.
Qed.

(** The loop rewrites the [n] pixels from index [k] on. *)
Lemma grayscale_loop_spec (n k : nat) (buf : list Pixel) :
  (k + n <= length buf)%nat →
  grayscale_loop n (Z.of_nat k) buf =
    Ret (take k buf ++ map gray (take n (drop k buf)) ++ drop (k + n) buf).
Proof.
  revert k buf. induction n as [|n IH]; intros k buf Hlen.
  - simpl. rewrite Nat.add_0_r. now rewrite take_drop.
  - assert (is_Some (buf !! k)) as [p Hp] by (apply lookup_lt_is_Some; lia).
    cbn [grayscale_loop].
    rewrite (array_get_lookup buf (Z.of_nat k) p) by (rewrite ?Nat2Z.id; first [lia|done]).
    cbn [mbind outcome_bind].
    rewrite array_set_insert by lia. cbn [mbind outcome_bind].
    rewrite Nat2Z.id.
    replace (Z.of_nat k + 1) with (Z.of_nat (S k)) by lia.
    rewrite IH by (rewrite length_insert; lia).
    f_equal.
    rewrite (take_S_r _ _ (gray p)) by (now apply list_lookup_insert_eq; lia).
    rewrite take_insert_ge by lia.
    rewrite !drop_insert_lt by lia.
    rewrite (drop_S buf p k Hp). cbn [take map].
    rewrite <- app_assoc. simpl.
    now replace (S (k + n))%nat with (k + S n)%nat by lia.
Qed.

(** A loop that returns stayed inside the buffer. *)
Lemma grayscale_loop_inside (n k : nat) (buf buf' : list Pixel) :
  grayscale_loop n (Z.of_nat k) buf = Ret buf' → n = 0%nat ∨ (k + n <= length buf)%nat.
Proof.
  revert k buf. induction n as [|n IH]; intros k buf Hret; [now left|right].
  cbn [grayscale_loop] in Hret. unfold array_get in Hret.
  destruct (Z.ltb_spec (Z.of_nat k) 0); [lia|].
  rewrite Nat2Z.id in Hret.
  destruct (buf !! k) as [p|] eqn:Hp; [|discriminate].
  apply lookup_lt_Some in Hp.
  cbn [mbind outcome_bind] in Hret.
  rewrite array_set_insert in Hret by lia. cbn [mbind outcome_bind] in Hret.
  replace (Z.of_nat k + 1) with (Z.of_nat (S k)) in Hret by lia.
  apply IH in Hret. rewrite length_insert in Hret. lia.
Qed.

Lemma bmp_grayscale_twice (image image' : option BMPImage) :
  bmp_grayscale image = Ret image' → bmp_grayscale image' = Ret image'.
Proof.
  destruct image as [im|]; [|intros [= <-]; reflexivity].
  unfold bmp_grayscale at 1.
  destruct (data im) as [buf|] eqn:Hdata;
    [|intros [= <-]; unfold bmp_grayscale; now rewrite Hdata].
  cbv zeta. set (n := Z.to_nat (to_int (height im * width im))).
  destruct (grayscale_loop n 0 buf) as [buf'|] eqn:Hloop; [|discriminate].
  cbn [mbind outcome_bind]. intros [= <-].
  unfold bmp_grayscale. cbn [data width height]. fold n.
  change 0 with (Z.of_nat 0) in Hloop |- *.
  destruct (grayscale_loop_inside _ _ _ _ Hloop) as [Hn|Hn].
  - rewrite Hn in *. simpl in *. congruence.
  - rewrite grayscale_loop_spec in Hloop by done. injection Hloop as <-.
    simpl in *. rewrite !drop_0 in *.
    assert (Hlen : length (map gray (take n buf)) = n)
      by (rewrite length_map, length_take; lia).
    rewrite grayscale_loop_spec by (rewrite length_app; lia).
    simpl. rewrite drop_0.
    rewrite take_app_length' by done. rewrite drop_app_length' by done.
    rewrite map_map. do 3 f_equal.
    rewrite (map_ext _ gray); [done|]. intros p. apply gray_idem.
Qed.

Lemma bmp_grayscale_well_formed (im : BMPImage) (buf : list Pixel) :
  well_formed im buf →
  bmp_grayscale (Some im) =
    Ret (Some (mkImage (width im) (height im) (Some (map gray buf)))).
Proof.
  intros (Hdata & Hw & Hh & Hlen & Hmax).
  unfold bmp_grayscale. rewrite Hdata. cbv zeta.
  rewrite to_int_id by (unfold INT_MIN, INT_MAX in *; nia).
  change 0 with (Z.of_nat 0).
  rewrite grayscale_loop_spec by lia. simpl.
  rewrite drop_0, take_ge, drop_ge by lia.
  now rewrite app_nil_r.
Qed.

(** C7: [bmp_grayscale] replaces the three channels of every pixel by the
    truncating integer average [(red + green + blue) / 3], and applying it
    a second time changes nothing. *)
Theorem bmp_grayscale_average_idempotent :
  (∀ p : Pixel,
     byte.unsigned (red (gray p)) =
       (byte.unsigned (red p) + byte.unsigned (green p) + byte.unsigned (blue p)) / 3
     ∧ green (gray p) = red (gray p) ∧ blue (gray p) = red (gray p))
  ∧ (∀ (im : BMPImage) (buf : list Pixel),
       well_formed im buf →
       bmp_grayscale (Some im) =
         Ret (Some (mkImage (width im) (height im) (Some (map gray buf)))))
  ∧ (∀ image image' : option BMPImage,
       bmp_grayscale image = Ret image' → bmp_grayscale image' = Ret image').
Proof.
  split; [|split].
  - intros p. split; [apply gray_channels|]. now unfold gray.
  - apply bmp_grayscale_well_formed.
  - apply bmp_grayscale_twice.
Qed.

Lemma bmp_grayscale_average_idempotent_witness :
  bmp_grayscale (Some Sample.img22) =
    Ret (Some (mkImage 2 2 (Some (map gray [Sample.p0; Sample.p1; Sample.p2; Sample.p3]))))
  ∧ bmp_grayscale (Some (mkImage 2 2 (Some (map gray [Sample.p0; Sample.p1; Sample.p2; Sample.p3])))) =
    Ret (Some (mkImage 2 2 (Some (map gray [Sample.p0; Sample.p1; Sample.p2; Sample.p3])))).
Proof.
  pose proof bmp_grayscale_average_idempotent as (_ & Hwf & Htwice).
  assert (Hfirst : bmp_grayscale (Some Sample.img22) =
    Ret (Some (mkImage 2 2 (Some (map gray [Sample.p0; Sample.p1; Sample.p2; Sample.p3]))))).
  { apply (Hwf Sample.img22). repeat split; vm_compute; congruence. }
  split; [exact Hfirst|]. exact (Htwice _ _ Hfirst).
Defined.

(** ** Memory as bytes *)

Lemma pixels_of_bytes_length (n : nat) (bs : list byte) :
  length bs = (3 * n)%nat → length (pixels_of_bytes bs) = n.
Proof.
  revert bs. induction n as [|n IH]; intros bs Hlen.
  - now destruct bs.
  - destruct bs as [|b [|g [|r rest]]]; simpl in Hlen; try lia.
    simpl. f_equal. apply IH. lia.
Qed.

Lemma uninit_bytes_length (n : nat) (w : world) : length (uninit_bytes n w) = n.
Proof. unfold uninit_bytes. now rewrite length_map, length_seq. Qed.

Lemma malloc_pixels_enough (n : Z) (w : world) :
  0 <= n → sizeof_Pixel * n <= heap_avail w →
  ∃ nd : list Pixel,
    malloc_pixels (sizeof_Pixel * n) w =
      Ret (Some nd, set_heap_avail (heap_avail w - sizeof_Pixel * n) w)
    ∧ Z.of_nat (length nd) = n.
Proof.
  intros Hn Havail. unfold malloc_pixels, malloc.
  destruct (Z.leb_spec (sizeof_Pixel * n) (heap_avail w)); [|lia].
  eexists. split; [reflexivity|].
  rewrite (pixels_of_bytes_length (Z.to_nat n)); [lia|].
  rewrite uninit_bytes_length. unfold sizeof_Pixel. lia.
Qed.

Lemma set_heap_avail_restore (a : Z) (w : world) :
  set_heap_avail (heap_avail w) (set_heap_avail a w) = w.
Proof. now destruct w. Qed.

(** ** Rotation *)

Lemma cell_index_inj (H c r c' r' : Z) :
  0 <= r < H → 0 <= r' < H → c * H + r = c' * H + r' → c = c' ∧ r = r'.
Proof.
  intros Hr Hr' Heq.
  assert (c = c') by nia. subst c'. lia.
Qed.

Section Rotation.

Context (im : BMPImage) (buf : list Pixel).
Context (Hwf : well_formed im buf).

Let W : Z := width im.
Let H : Z := height im.

Lemma size_facts :
  0 < W ∧ 0 < H ∧ Z.of_nat (length buf) = W * H ∧ W * H <= INT_MAX.
Proof. destruct Hwf as (_ & ? & ? & ? & ?). subst W H. auto. Qed.

Lemma rotate_new_index (i j : Z) :
  0 <= i < H → 0 <= j < W →
  to_int (to_int (j * H) + to_int (to_int (H - 1) - i)) = j * H + (H - 1 - i).
Proof.
  destruct size_facts as (HW & HH & Hlen & Hmax). intros Hi Hj.
  assert (0 <= j * H) by nia.
  assert (j * H + H <= W * H) by nia.
  unfold INT_MAX in Hmax.
  rewrite (to_int_id (j * H)) by (unfold INT_MIN, INT_MAX; lia).
  rewrite (to_int_id (H - 1)) by (unfold INT_MIN, INT_MAX; nia).
  rewrite (to_int_id (H - 1 - i)) by (unfold INT_MIN, INT_MAX; nia).
  apply to_int_id. unfold INT_MIN, INT_MAX. lia.
Qed.

Lemma rotate_old_index (i j : Z) :
  0 <= i < H → 0 <= j < W →
  to_int (to_int (i * W) + j) = i * W + j ∧ 0 <= i * W + j < W * H.
Proof.
  destruct size_facts as (HW & HH & Hlen & Hmax). intros Hi Hj.
  assert (0 <= i * W) by nia.
  assert (i * W + W <= W * H) by nia.
  unfold INT_MAX in Hmax.
  rewrite (to_int_id (i * W)) by (unfold INT_MIN, INT_MAX; lia).
  split; [|lia]. apply to_int_id. unfold INT_MIN, INT_MAX. lia.
Qed.

(** The inner loop fills, in the column [H - 1 - i] of the new image, the
    rows [j .. j + n - 1], and nothing else. *)
Lemma rotate_cols_spec (n : nat) (i j : Z) (nd : list Pixel) :
  0 <= i < H → 0 <= j → j + Z.of_nat n <= W → Z.of_nat (length nd) = W * H →
  ∃ nd' : list Pixel,
    rotate_cols n j i im buf H nd = Ret nd'
    ∧ length nd' = length nd
    ∧ ∀ c r, 0 <= c < W → 0 <= r < H →
        nd' !! Z.to_nat (c * H + r) =
          if decide (r = H - 1 - i ∧ j <= c < j + Z.of_nat n)
          then buf !! Z.to_nat (i * W + c)
          else nd !! Z.to_nat (c * H + r).
Proof.
  destruct size_facts as (HW & HH & Hlen & Hmax).
  revert j nd. induction n as [|n IH]; intros j nd Hi Hj Hjn Hnd.
  - exists nd. split; [done|]. split; [done|]. intros c r Hc Hr.
    case_decide; [lia|done].
  - cbn [rotate_cols]. fold W H.
    rewrite rotate_new_index by lia.
    destruct (rotate_old_index i j) as [-> Hold]; [lia..|].
    assert (is_Some (buf !! Z.to_nat (i * W + j))) as [p Hp]
      by (apply lookup_lt_is_Some; lia).
    rewrite (array_get_lookup buf _ p) by (done || lia).
    cbn [mbind outcome_bind].
    assert (0 <= j * H) by nia.
    assert (j * H + H <= W * H) by nia.
    rewrite array_set_insert by lia. cbn [mbind outcome_bind].
    destruct (IH (j + 1) (<[Z.to_nat (j * H + (H - 1 - i)) := p]> nd))
      as (nd' & Hrun & Hlen' & Hcells);
      [lia | lia | lia | rewrite length_insert; lia |].
    exists nd'. split; [exact Hrun|]. split; [now rewrite Hlen', length_insert|].
    intros c r Hc Hr. rewrite Hcells by done.
    destruct (decide (c = j ∧ r = H - 1 - i)) as [[-> ->]|Hne].
    + rewrite list_lookup_insert_eq by lia.
      repeat case_decide; try lia; done.
    + rewrite list_lookup_insert_ne.
      * repeat case_decide; try lia; done.
      * intros Heq. apply Hne.
        assert (0 <= c * H) by nia.
        apply (cell_index_inj H c r j (H - 1 - i)); lia.
Qed.

(** The outer loop fills the columns [H - 1 - i] for the rows
    [i .. i + n - 1] of the old image. *)
Lemma rotate_rows_spec (n : nat) (i : Z) (nd : list Pixel) :
  0 <= i → i + Z.of_nat n <= H → Z.of_nat (length nd) = W * H →
  ∃ nd' : list Pixel,
    rotate_rows n i im buf H nd = Ret nd'
    ∧ length nd' = length nd
    ∧ ∀ c r, 0 <= c < W → 0 <= r < H →
        nd' !! Z.to_nat (c * H + r) =
          if decide (i <= H - 1 - r < i + Z.of_nat n)
          then buf !! Z.to_nat ((H - 1 - r) * W + c)
          else nd !! Z.to_nat (c * H + r).
Proof.
  destruct size_facts as (HW & HH & Hlen & Hmax).
  revert i nd. induction n as [|n IH]; intros i nd Hi Hin Hnd.
  - exists nd. split; [done|]. split; [done|]. intros c r Hc Hr.
    case_decide; [lia|done].
  - cbn [rotate_rows]. fold W H.
    destruct (rotate_cols_spec (Z.to_nat W) i 0 nd) as (nd1 & -> & Hlen1 & Hcells1);
      [lia..|].
    cbn [mbind outcome_bind].
    destruct (IH (i + 1) nd1) as (nd' & Hrun & Hlen' & Hcells);
      [lia | lia | lia |].
    exists nd'. split; [exact Hrun|]. split; [congruence|].
    intros c r Hc Hr. rewrite Hcells, Hcells1 by done.
    repeat case_decide; try lia; try done.
    now replace (H - 1 - r) with i by lia.
Qed.

(** What [bmp_rotate_right] does to a well-formed image when the allocator
    has room for the new buffer. *)
Lemma bmp_rotate_right_spec (w : world) :
  sizeof_Pixel * (W * H) <= heap_avail w →
  ∃ nd : list Pixel,
    bmp_rotate_right (Some im) w = Ret (Some (mkImage H W (Some nd)), w)
    ∧ length nd = length buf
    ∧ ∀ c r, 0 <= c < W → 0 <= r < H →
        nd !! Z.to_nat (c * H + r) = buf !! Z.to_nat ((H - 1 - r) * W + c).
Proof.
  destruct size_facts as (HW & HH & Hlen & Hmax). intros Havail.
  unfold bmp_rotate_right. destruct Hwf as (-> & _). fold W H.
  assert (0 < W * H) by nia.
  unfold INT_MAX in Hmax.
  rewrite (to_int_id (H * W)) by (unfold INT_MIN, INT_MAX; nia).
  rewrite (to_size_id (H * W)) by nia.
  rewrite to_size_id by (unfold sizeof_Pixel; nia).
  replace (H * W * sizeof_Pixel) with (sizeof_Pixel * (W * H)) by lia.
  destruct (malloc_pixels_enough (W * H) w) as (nd0 & Hmalloc & Hnd0); [lia..|].
  destruct (rotate_rows_spec (Z.to_nat H) 0 nd0) as (nd & Hrun & Hlen' & Hcells);
    [lia..|].
  exists nd. split; [|split].
  - unfold mbind at 1, io_bind. rewrite Hmalloc.
    unfold mbind at 1, io_bind. unfold lift at 1. rewrite Hrun.
    unfold mbind, io_bind, free_pixels, free, mret, io_ret. cbn [heap_avail set_heap_avail].
    do 2 f_equal.
    replace (heap_avail w - sizeof_Pixel * (W * H) + sizeof_Pixel * Z.of_nat (length buf))
      with (heap_avail w) by lia.
    apply set_heap_avail_restore.
  - lia.
  - intros c r Hc Hr. rewrite Hcells by done.
    case_decide; [done|lia].
Qed.

End Rotation.

Lemma well_formed_rotated (im : BMPImage) (buf nd : list Pixel) :
  well_formed im buf → length nd = length buf →
  well_formed (mkImage (height im) (width im) (Some nd)) nd.
Proof.
  intros (Hdata & Hw & Hh & Hlen & Hmax) Hnd.
  unfold well_formed. cbn [data width height].
  repeat split; try done; lia.
Qed.

(** C4: for every well-formed image (non-null, with a non-null buffer),
    [bmp_rotate_right] yields an image with [newWidth = oldHeight] and
    [newHeight = oldWidth] in which the pixel of old index
    [i * oldWidth + j] (row [i], column [j]) stands at new index
    [j * newWidth + (oldHeight - 1 - i)]; a 2x2 image [p0; p1; p2; p3]
    becomes [p2; p0; p3; p1]. *)
Theorem bmp_rotate_right_layout :
  (∀ (im : BMPImage) (buf : list Pixel) (w : world),
     well_formed im buf →
     sizeof_Pixel * (width im * height im) <= heap_avail w →
     ∃ nd : list Pixel,
       bmp_rotate_right (Some im) w =
         Ret (Some (mkImage (height im) (width im) (Some nd)), w)
       ∧ length nd = length buf
       ∧ ∀ i j, 0 <= i < height im → 0 <= j < width im →
           nd !! Z.to_nat (j * height im + (height im - 1 - i)) =
           buf !! Z.to_nat (i * width im + j))
  ∧ (∀ (p0 p1 p2 p3 : Pixel) (w : world),
       12 <= heap_avail w →
       bmp_rotate_right (Some (mkImage 2 2 (Some [p0; p1; p2; p3]))) w =
         Ret (Some (mkImage 2 2 (Some [p2; p0; p3; p1])), w)).
Proof.
  assert (Hgen : ∀ (im : BMPImage) (buf : list Pixel) (w : world),
     well_formed im buf →
     sizeof_Pixel * (width im * height im) <= heap_avail w →
     ∃ nd : list Pixel,
       bmp_rotate_right (Some im) w =
         Ret (Some (mkImage (height im) (width im) (Some nd)), w)
       ∧ length nd = length buf
       ∧ ∀ i j, 0 <= i < height im → 0 <= j < width im →
           nd !! Z.to_nat (j * height im + (height im - 1 - i)) =
           buf !! Z.to_nat (i * width im + j)).
  { intros im buf w Hwf Havail.
    destruct (bmp_rotate_right_spec im buf Hwf w Havail) as (nd & Hrun & Hlen & Hcells).
    exists nd. split; [exact Hrun|]. split; [exact Hlen|].
    intros i j Hi Hj. rewrite Hcells by lia.
    do 2 f_equal. lia. }
  split; [exact Hgen|].
  intros p0 p1 p2 p3 w Havail.
  destruct (Hgen (mkImage 2 2 (Some [p0; p1; p2; p3])) [p0; p1; p2; p3] w)
    as (nd & -> & Hlen & Hcells).
  { repeat split; simpl; unfold INT_MAX; lia. }
  { simpl. unfold sizeof_Pixel. lia. }
  cbn [width height length] in *.
  pose proof (Hcells 0 0 ltac:(lia) ltac:(lia)) as H00.
  pose proof (Hcells 0 1 ltac:(lia) ltac:(lia)) as H01.
  pose proof (Hcells 1 0 ltac:(lia) ltac:(lia)) as H10.
  pose proof (Hcells 1 1 ltac:(lia) ltac:(lia)) as H11.
  destruct nd as [|a [|b [|c [|d [|? ?]]]]]; try discriminate Hlen.
  vm_compute in H00, H01, H10, H11. congruence.
Qed.

Lemma bmp_rotate_right_layout_witness :
  (∃ nd : list Pixel,
     bmp_rotate_right (Some Sample.img31) Sample.w0 =
       Ret (Some (mkImage 1 3 (Some nd)), Sample.w0)
     ∧ length nd = 3%nat
     ∧ ∀ i j, 0 <= i < 1 → 0 <= j < 3 →
         nd !! Z.to_nat (j * 1 + (1 - 1 - i)) =
         [Sample.p0; Sample.p1; Sample.p2] !! Z.to_nat (i * 3 + j))
  ∧ bmp_rotate_right (Some Sample.img22) Sample.w0 =
      Ret (Some (mkImage 2 2 (Some [Sample.p2; Sample.p0; Sample.p3; Sample.p1])),
           Sample.w0).
Proof.
  split.
  - apply (proj1 bmp_rotate_right_layout Sample.img31
             [Sample.p0; Sample.p1; Sample.p2] Sample.w0).
    + repeat split; vm_compute; congruence.
    + vm_compute; congruence.
  - apply (proj2 bmp_rotate_right_layout). vm_compute; congruence.
Defined.

(** C5: for every well-formed image (positive width and height, a buffer
    of [width * height] pixels), four applications of [bmp_rotate_right]
    give back an image with the width, the height and the pixels of the
    original. *)
Theorem bmp_rotate_right_four_times (im : BMPImage) (buf : list Pixel) (w : world) :
  well_formed im buf →
  sizeof_Pixel * (width im * height im) <= heap_avail w →
  (im1 ← bmp_rotate_right (Some im);
   im2 ← bmp_rotate_right im1;
   im3 ← bmp_rotate_right im2;
   bmp_rotate_right im3) w = Ret (Some im, w).
Proof.
  intros Hwf Havail.
  pose proof Hwf as (Hdata & HW & HH & Hlen & Hmax).
  destruct (bmp_rotate_right_spec im buf Hwf w Havail) as (nd1 & Hrun1 & Hlen1 & E1).
  pose proof (well_formed_rotated im buf nd1 Hwf Hlen1) as Hwf1.
  destruct (bmp_rotate_right_spec _ nd1 Hwf1 w) as (nd2 & Hrun2 & Hlen2 & E2);
    [cbn [width height]; lia|].
  pose proof (well_formed_rotated _ nd1 nd2 Hwf1 Hlen2) as Hwf2.
  cbn [width height] in Hwf2, Hrun2, E2.
  destruct (bmp_rotate_right_spec _ nd2 Hwf2 w) as (nd3 & Hrun3 & Hlen3 & E3);
    [cbn [width height]; lia|].
  pose proof (well_formed_rotated _ nd2 nd3 Hwf2 Hlen3) as Hwf3.
  cbn [width height] in Hwf3, Hrun3, E3.
  destruct (bmp_rotate_right_spec _ nd3 Hwf3 w) as (nd4 & Hrun4 & Hlen4 & E4);
    [cbn [width height]; lia|].
  cbn [width height] in Hrun4, E4.
  unfold mbind at 1, io_bind. rewrite Hrun1.
  unfold mbind at 1, io_bind. rewrite Hrun2.
  unfold mbind at 1, io_bind. rewrite Hrun3.
  rewrite Hrun4. do 3 f_equal.
  assert (nd4 = buf) as ->; [|destruct im; simpl in *; congruence].
  apply list_eq. intros k.
  destruct (decide (k < length buf)%nat) as [Hk|Hk].
  - set (W := width im) in *. set (H := height im) in *.
    pose proof (Z.div_mod (Z.of_nat k) W ltac:(lia)) as Hdm.
    pose proof (Z.mod_pos_bound (Z.of_nat k) W ltac:(lia)) as Hr.
    set (c := Z.of_nat k / W) in *. set (r := Z.of_nat k mod W) in *.
    assert (0 <= c < H) by nia.
    replace k with (Z.to_nat (c * W + r)) by lia.
    rewrite (E4 c r) by lia.
    rewrite (E3 (W - 1 - r) c) by lia.
    rewrite (E2 (H - 1 - c) (W - 1 - r)) by lia.
    rewrite (E1 (W - 1 - (W - 1 - r)) (H - 1 - c)) by lia.
    do 2 f_equal. lia.
  - rewrite !lookup_ge_None_2; [done|lia|lia].
Qed.

Lemma bmp_rotate_right_four_times_witness :
  (im1 ← bmp_rotate_right (Some Sample.img31);
   im2 ← bmp_rotate_right im1;
   im3 ← bmp_rotate_right im2;
   bmp_rotate_right im3) Sample.w0 = Ret (Some Sample.img31, Sample.w0).
Proof.
  apply (bmp_rotate_right_four_times Sample.img31 [Sample.p0; Sample.p1; Sample.p2]).
  - repeat split; vm_compute; congruence.
  - vm_compute; congruence.
Defined.

(** ** Pixels and their bytes *)

Lemma bytes_of_pixels_length (l : list Pixel) :
  length (bytes_of_pixels l) = (3 * length l)%nat.
Proof. induction l as [|p l IH]; simpl; [done|]. rewrite IH. lia. Qed.

Lemma pixels_of_bytes_pixels (l : list Pixel) (rest : list byte) :
  pixels_of_bytes (bytes_of_pixels l ++ rest) = l ++ pixels_of_bytes rest.
Proof.
  induction l as [|[b g r] l IH]; [done|].
  simpl. now rewrite IH.
Qed.

Lemma pixels_of_bytes_app (n : nat) (a b : list byte) :
  length a = (3 * n)%nat →
  pixels_of_bytes (a ++ b) = pixels_of_bytes a ++ pixels_of_bytes b.
Proof.
  revert a. induction n as [|n IH]; intros a Hlen.
  - now destruct a.
  - destruct a as [|x [|y [|z a]]]; simpl in Hlen; try lia.
    simpl. f_equal. apply IH. lia.
Qed.

Lemma drop_bytes_of_pixels (k : nat) (l : list Pixel) :
  drop (3 * k) (bytes_of_pixels l) = bytes_of_pixels (drop k l).
Proof.
  rewrite Nat.mul_comm. revert l. induction k as [|k IH]; intros l; [done|].
  destruct l as [|p l]; [done|]. simpl. now rewrite IH.
Qed.

(** ** Streams *)

Lemma fwrite_append (f : gmap string (list byte)) (l : gset string) (a : Z)
    (j : nat → byte) (o : nat) (name : string) (content src : list byte) :
  f !! name = Some content →
  fwrite src (Some (mkFILE name (Z.of_nat (length content)))) (mkWorld f l a j o) =
    Ret (Some (mkFILE name (Z.of_nat (length (content ++ src)))),
         mkWorld (<[name := content ++ src]> f) l a j o).
Proof.
  intros Hf. unfold fwrite. cbn [fpath fpos files]. rewrite Hf.
  cbn [default from_option id]. unfold set_files. cbn [files locked heap_avail junk open_streams].
  rewrite Nat2Z.id, take_ge, drop_ge by lia.
  rewrite app_nil_r, length_app, Nat2Z.inj_add. reflexivity.
Qed.

Lemma fread_available (w : world) (name : string) (c dest : list byte)
    (pos : nat) (size nmemb : Z) :
  files w !! name = Some c →
  0 <= size * nmemb →
  (pos + Z.to_nat (size * nmemb) <= length c)%nat →
  (Z.to_nat (size * nmemb) <= length dest)%nat →
  fread dest size nmemb (Some (mkFILE name (Z.of_nat pos))) w =
    Ret ((take (Z.to_nat (size * nmemb)) (drop pos c)
            ++ drop (Z.to_nat (size * nmemb)) dest,
          Some (mkFILE name (Z.of_nat (pos + Z.to_nat (size * nmemb))))), w).
Proof.
  intros Hf Hn Hc Hdest. unfold fread. cbn [fpath fpos]. rewrite Hf.
  cbn [default from_option id].
  rewrite Nat2Z.id.
  assert (Hgot : length (take (Z.to_nat (size * nmemb)) (drop pos c))
                 = Z.to_nat (size * nmemb))
    by (rewrite length_take, length_drop; lia).
  rewrite Hgot.
  destruct (Nat.ltb_spec (length dest) (Z.to_nat (size * nmemb))); [lia|].
  now rewrite Nat2Z.inj_add.
Qed.

(** ** The file layout *)

Lemma row_padding_range (w : Z) : 0 <= row_padding w <= 3.
Proof. apply (padding_law w). Qed.

Lemma calculate_padding_row_padding (w : Z) : calculate_padding w = row_padding w.
Proof.
  unfold calculate_padding, row_padding, sizeof_Pixel, to_size.
  assert (Hdiv : (to_size w * 3) mod 2 ^ 64 mod 4 = (w * 3) mod 4).
  { unfold to_size.
    rewrite Z.mod_mod_divide by (now exists (2 ^ 62)).
    rewrite Z.mul_mod by lia.
    rewrite Z.mod_mod_divide by (now exists (2 ^ 62)).
    now rewrite <- Z.mul_mod by lia. }
  unfold to_size in Hdiv. rewrite Hdiv.
  pose proof (Z.mod_pos_bound (w * 3) 4 ltac:(lia)) as Hm.
  pose proof (Z.mod_pos_bound (4 - (w * 3) mod 4) 4 ltac:(lia)) as Hp.
  rewrite (Z.mod_small (4 - (w * 3) mod 4) (2 ^ 64)) by lia.
  apply to_int_id. unfold INT_MIN, INT_MAX. lia.
Qed.

Lemma padding_bytes_take (p : Z) :
  0 <= p <= 3 →
  bytes_at padding_bytes (to_size p) = Ret (replicate (Z.to_nat p) Byte.x00).
Proof.
  intros Hp. rewrite to_size_id by lia.
  assert (p = 0 ∨ p = 1 ∨ p = 2 ∨ p = 3) as [->|[->|[->| ->]]] by lia; reflexivity.
Qed.

Section Save.

Context (im : BMPImage) (buf : list Pixel) (name : string).
Context (Hwf : well_formed im buf).

Let W : Z := width im.
Let H : Z := height im.
Let pad : Z := row_padding W.

Lemma pixel_bytes_at_row (i : Z) :
  0 <= i < H →
  pixel_bytes_at (data im) (to_int (i * W)) (to_size W) =
    Ret (bytes_of_pixels (take (Z.to_nat W) (drop (Z.to_nat (i * W)) buf))).
Proof.
  destruct Hwf as (Hdata & HW & HH & Hlen & Hmax). fold W H in HW, HH, Hlen, Hmax.
  intros Hi. unfold INT_MAX in Hmax.
  assert (0 <= i * W) by nia.
  assert (i * W + W <= W * H) by nia.
  rewrite to_int_id by (unfold INT_MIN, INT_MAX; lia).
  rewrite to_size_id by lia.
  unfold pixel_bytes_at. rewrite Hdata.
  destruct (Z.eqb_spec W 0); [lia|].
  destruct (Z.ltb_spec (i * W) 0); [lia|].
  destruct (Z.ltb_spec (Z.of_nat (length buf)) (i * W + W)); [lia|].
  reflexivity.
Qed.

(** The row loop appends the rows [i .. i + n - 1], padded, to the file. *)
Lemma save_rows_spec (n : nat) (i : Z) (f : gmap string (list byte))
    (l : gset string) (a : Z) (j : nat → byte) (o : nat) (content : list byte) :
  0 <= i → i + Z.of_nat n <= H → f !! name = Some content →
  let rows := padded_rows (Z.to_nat W) (Z.to_nat pad)
                (drop (Z.to_nat (i * W)) buf) n in
  save_rows n i im (calculate_padding W)
      (Some (mkFILE name (Z.of_nat (length content)))) (mkWorld f l a j o) =
    Ret (Some (mkFILE name (Z.of_nat (length (content ++ rows)))),
         mkWorld (<[name := content ++ rows]> f) l a j o).
Proof.
  destruct Hwf as (Hdata & HW & HH & Hlen & Hmax). fold W H in HW, HH, Hlen, Hmax.
  revert i f content. induction n as [|n IH]; intros i f content Hi Hin Hf rows.
  - subst rows. cbn [save_rows padded_rows]. rewrite app_nil_r.
    unfold mret, io_ret. now rewrite insert_id.
  - subst rows. cbn [save_rows padded_rows]. fold W.
    rewrite pixel_bytes_at_row by lia.
    rewrite calculate_padding_row_padding. fold pad.
    rewrite padding_bytes_take by apply row_padding_range.
    unfold mbind, io_bind, lift.
    rewrite (fwrite_append f l a j o name content) by done.
    set (row := bytes_of_pixels (take (Z.to_nat W) (drop (Z.to_nat (i * W)) buf))).
    rewrite (fwrite_append _ l a j o name (content ++ row))
      by apply lookup_insert_eq.
    specialize (IH (i + 1) (<[name := (content ++ row) ++ replicate (Z.to_nat pad) Byte.x00]>
                              (<[name := content ++ row]> f))
                   ((content ++ row) ++ replicate (Z.to_nat pad) Byte.x00)).
    rewrite calculate_padding_row_padding in IH. fold pad in IH.
    unfold mbind, io_bind, lift in IH.
    rewrite IH; [|lia|lia|apply lookup_insert_eq].
    rewrite !insert_insert_eq.
    rewrite drop_drop.
    replace (Z.to_nat (i * W) + Z.to_nat W)%nat with (Z.to_nat ((i + 1) * W)) by nia.
    now rewrite <- !app_assoc.
Qed.

Lemma saved_sizes :
  to_u32 (to_size (to_size (to_size (to_size W * sizeof_Pixel)
                            + to_size (calculate_padding W))
                   * to_size H)) = to_u32 ((W * 3 + pad) * H).
Proof.
  destruct Hwf as (Hdata & HW & HH & Hlen & Hmax). fold W H in HW, HH, Hlen, Hmax.
  unfold INT_MAX in Hmax. rewrite calculate_padding_row_padding. fold pad.
  pose proof (row_padding_range W) as Hpad. fold pad in Hpad.
  assert (W <= 2 ^ 31 - 1) by nia.
  assert (H <= 2 ^ 31 - 1) by nia.
  unfold sizeof_Pixel.
  rewrite (to_size_id W) by lia.
  rewrite (to_size_id (W * 3)) by lia.
  rewrite (to_size_id pad) by lia.
  rewrite (to_size_id (W * 3 + pad)) by lia.
  rewrite (to_size_id H) by lia.
  rewrite to_size_id by nia. reflexivity.
Qed.

(** [bmp_save] on a well-formed image and a path that can be written:
    the file holds the headers and the padded rows, nothing else changes. *)
Lemma bmp_save_spec (w : world) :
  name ∉ locked w →
  bmp_save (Some im) name w =
    Ret (BMP_SUCCESS, set_files (<[name := saved_file im buf]> (files w)) w).
Proof.
  destruct Hwf as (Hdata & HW & HH & Hlen & Hmax). fold W H in HW, HH, Hlen, Hmax.
  destruct w as [f l a j o]. cbn [locked files]. intros Hfree.
  unfold bmp_save. unfold mbind at 1, io_bind. unfold fopen_write.
  cbn [locked files open_streams set_files set_open_streams heap_avail junk].
  destruct (decide (name ∈ l)) as [|_]; [done|].
  cbv zeta. fold W H. rewrite saved_sizes.
  set (image_size := to_u32 ((W * 3 + pad) * H)).
  replace (to_u32 (to_size (sizeof_BMPFileHeader + sizeof_BMPInfoHeader + image_size)))
    with (to_u32 (54 + image_size)).
  2:{ unfold to_u32, to_size, sizeof_BMPFileHeader, sizeof_BMPInfoHeader.
      rewrite Z.mod_mod_divide by (now exists (2 ^ 32)). f_equal. }
  set (fhb := file_header_bytes _). set (ihb := info_header_bytes _).
  unfold set_open_streams, set_files.
  cbn [locked files open_streams heap_avail junk].
  change (mkFILE name 0) with (mkFILE name (Z.of_nat (length (@nil byte)))).
  unfold mbind at 1, io_bind.
  rewrite (fwrite_append _ l a j (S o) name [] fhb) by apply lookup_insert_eq.
  unfold mbind at 1, io_bind.
  rewrite (fwrite_append _ l a j (S o) name ([] ++ fhb) ihb) by apply lookup_insert_eq.
  unfold mbind at 1, io_bind.
  rewrite (save_rows_spec (Z.to_nat H) 0 _ l a j (S o) (([] ++ fhb) ++ ihb));
    [|lia|lia|apply lookup_insert_eq].
  unfold mbind, io_bind, fclose, mret, io_ret, set_open_streams.
  cbn [files locked heap_avail junk open_streams Nat.pred].
  rewrite !insert_insert_eq. do 3 f_equal.
Qed.

End Save.

Section Load.

Context (w : world) (name : string) (c : list byte).
Context (Hfile : files w !! name = Some c).
Context (Wn padn : nat) (HW : (0 < Wn)%nat).

Let stride : nat := (3 * Wn + padn)%nat.

(** The row loop of [bmp_load] on a file that holds the [n] rows it asks
    for: [done] are the rows already read, [todo] the rest of the block. *)
Lemma load_rows_spec (n i : nat) (img : BMPImage) (done todo : list Pixel) (pos : nat) :
  width img = Z.of_nat Wn →
  length done = (i * Wn)%nat →
  (n * Wn <= length todo)%nat →
  Z.of_nat (length (done ++ todo)) <= INT_MAX →
  (pos + n * stride <= length c)%nat →
  load_rows n (Z.of_nat i) img (Z.of_nat padn) (done ++ todo)
      (Some (mkFILE name (Z.of_nat pos))) w =
    Ret ((done ++ stored_rows Wn stride c pos n ++ drop (n * Wn) todo,
          Some (mkFILE name (Z.of_nat (pos + n * stride)))), w).
Proof.
  intros Hwidth. revert i done todo pos.
  induction n as [|n IH]; intros i done todo pos Hdone Htodo Hmax Hc.
  - cbn [load_rows stored_rows]. unfold mret, io_ret.
    now rewrite Nat.mul_0_l, Nat.add_0_r, drop_0.
  - cbn [load_rows stored_rows]. rewrite Hwidth.
    rewrite length_app in Hmax. unfold INT_MAX in Hmax.
    replace (Z.of_nat i * Z.of_nat Wn) with (Z.of_nat (length done)) by nia.
    rewrite to_int_id by (unfold INT_MIN, INT_MAX; lia).
    rewrite to_size_id by lia.
    unfold fread_pixels.
    destruct (Z.leb_spec 0 (Z.of_nat (length done))); [|lia].
    destruct (Z.leb_spec (Z.of_nat (length done)) (Z.of_nat (length (done ++ todo))));
      [|rewrite length_app in *; lia].
    cbn [andb]. rewrite Nat2Z.id, drop_app_length, take_app_length.
    assert (Hreq : Z.to_nat (sizeof_Pixel * Z.of_nat Wn) = (3 * Wn)%nat)
      by (unfold sizeof_Pixel; lia).
    unfold mbind at 1, io_bind. unfold mbind at 1, io_bind.
    rewrite (fread_available w name c _ pos); [|done|unfold sizeof_Pixel; lia| |].
    2:{ rewrite Hreq. subst stride. lia. }
    2:{ rewrite Hreq, bytes_of_pixels_length. lia. }
    rewrite Hreq. set (got := take (3 * Wn) (drop pos c)).
    assert (Hgot : length got = (3 * Wn)%nat)
      by (subst got stride; rewrite length_take, length_drop; lia).
    unfold mret at 1, io_ret. unfold fseek. cbn [fpos fpath].
    destruct (Z.ltb_spec (Z.of_nat (pos + 3 * Wn) + Z.of_nat padn) 0); [lia|].
    rewrite (pixels_of_bytes_app Wn) by done.
    rewrite drop_bytes_of_pixels.
    rewrite <- (app_nil_r (bytes_of_pixels (drop Wn todo))).
    rewrite pixels_of_bytes_pixels. cbn [pixels_of_bytes]. rewrite app_nil_r.
    replace (Z.of_nat (pos + 3 * Wn) + Z.of_nat padn)
      with (Z.of_nat (pos + stride)) by (subst stride; lia).
    replace (Z.of_nat i + 1) with (Z.of_nat (S i)) by lia.
    rewrite (app_assoc done).
    assert (Hrow : length (pixels_of_bytes got) = Wn)
      by now apply pixels_of_bytes_length.
    unfold mbind, io_bind.
    rewrite IH.
    + rewrite drop_drop, <- !app_assoc.
      replace (Wn + n * Wn)%nat with (S n * Wn)%nat by lia.
      now replace (pos + stride + n * stride)%nat with (pos + S n * stride)%nat by lia.
    + rewrite length_app, Hrow. lia.
    + rewrite length_drop. lia.
    + rewrite !length_app, Hrow, length_drop. unfold INT_MAX. lia.
    + lia.
Qed.

End Load.

(** ** Decoding *)

Lemma field_nonneg (o n : nat) (bs : list byte) : 0 <= field o n bs.
Proof. unfold field. apply le_combine_bound. Qed.

Lemma fopen_read_existing (w : world) (name : string) (c : list byte) :
  files w !! name = Some c →
  fopen_read name w =
    Ret (Some (mkFILE name (Z.of_nat 0)), set_open_streams (S (open_streams w)) w).
Proof. intros Hf. unfold fopen_read. now rewrite Hf. Qed.

(** Reading a whole header from a file that holds it. *)
Lemma fread_header (w : world) (name : string) (c : list byte) (pos n : nat) :
  files w !! name = Some c → (pos + n <= length c)%nat →
  fread (uninit_bytes n w) (Z.of_nat n) 1 (Some (mkFILE name (Z.of_nat pos))) w =
    Ret ((take n (drop pos c), Some (mkFILE name (Z.of_nat (pos + n)))), w).
Proof.
  intros Hf Hlen.
  rewrite (fread_available w name c); [|done|lia| |];
    rewrite ?Z.mul_1_r, ?Nat2Z.id, ?uninit_bytes_length; [|lia..].
  rewrite (drop_ge (uninit_bytes n w)) by (rewrite uninit_bytes_length; lia).
  now rewrite app_nil_r.
Qed.

(** [bmp_load] on a file that holds both headers with the right signature
    and depth, positive dimensions, and all the rows the headers announce,
    when the allocator has room. *)
Lemma bmp_load_spec (w : world) (name : string) (c : list byte)
    (err_out : option BMPError) :
  files w !! name = Some c →
  (54 <= length c)%nat →
  let fh := file_header_of_bytes (take 14 c) in
  let ih := info_header_of_bytes (take 40 (drop 14 c)) in
  let W := ih_width ih in
  let H := to_int (Z.abs (ih_height ih)) in
  fh_type fh = 0x4D42 → ih_bit_count ih = 24 →
  0 < W → 0 < H → W * H <= INT_MAX →
  sizeof_BMPImage + sizeof_Pixel * (W * H) <= heap_avail w →
  fh_offset fh + H * (3 * W + row_padding W) <= Z.of_nat (length c) →
  bmp_load name err_out w =
    Ret ((Some (mkImage W H
                  (Some (stored_rows (Z.to_nat W) (Z.to_nat (3 * W + row_padding W))
                           c (Z.to_nat (fh_offset fh)) (Z.to_nat H)))),
          set_err err_out BMP_SUCCESS),
         set_heap_avail (heap_avail w - sizeof_BMPImage - sizeof_Pixel * (W * H)) w).
Proof.
  intros Hf Hc fh ih W H Htype Hbits HW HH Hmax Havail Hrows.
  pose proof (row_padding_range W) as Hpad.
  assert (Hoff : 0 <= fh_offset fh) by apply field_nonneg.
  unfold bmp_load.
  unfold mbind at 1, io_bind. rewrite (fopen_read_existing w name c Hf).
  set (w1 := set_open_streams _ w).
  assert (Hf1 : files w1 !! name = Some c) by now destruct w.
  unfold mbind at 1, io_bind. unfold alloca at 1.
  unfold mbind at 1, io_bind. unfold alloca at 1.
  change (Z.to_nat sizeof_BMPFileHeader) with 14%nat.
  change (Z.to_nat sizeof_BMPInfoHeader) with 40%nat.
  change sizeof_BMPFileHeader with (Z.of_nat 14).
  change sizeof_BMPInfoHeader with (Z.of_nat 40).
  unfold mbind at 1, io_bind.
  rewrite (fread_header w1 name c 0 14) by (done || lia).
  unfold mbind at 1, io_bind.
  rewrite (fread_header w1 name c (0 + 14) 40) by (done || lia).
  rewrite drop_0. cbn [Nat.add]. fold fh ih.
  rewrite Htype, Hbits. cbn [Z.eqb Pos.eqb negb orb].
  unfold mbind at 1, io_bind. unfold malloc at 1.
  assert (Havail1 : heap_avail w1 = heap_avail w) by now destruct w.
  rewrite Havail1.
  assert (0 < W * H) by nia.
  destruct (Z.leb_spec sizeof_BMPImage (heap_avail w));
    [|unfold sizeof_BMPImage, sizeof_Pixel in *; lia].
  cbn [negb]. fold W H.
  unfold INT_MAX in Hmax.
  rewrite (to_int_id (H * W)) by (unfold INT_MIN, INT_MAX; nia).
  rewrite (to_size_id (H * W)) by nia.
  rewrite to_size_id by (unfold sizeof_Pixel; nia).
  replace (H * W * sizeof_Pixel) with (sizeof_Pixel * (W * H)) by lia.
  set (w2 := set_heap_avail _ w1).
  destruct (malloc_pixels_enough (W * H) w2) as (nd0 & Hmalloc & Hnd0);
    [lia|subst w2 w1; destruct w; cbn [heap_avail set_heap_avail set_open_streams] in *; lia|].
  unfold mbind at 1, io_bind. rewrite Hmalloc.
  set (w3 := set_heap_avail _ w2).
  assert (Hf3 : files w3 !! name = Some c) by now destruct w.
  unfold mbind at 1, io_bind. unfold fseek at 1. cbn [fpath fpos].
  destruct (Z.ltb_spec (fh_offset fh) 0); [lia|].
  cbn [width height]. rewrite calculate_padding_row_padding.
  unfold mbind at 1, io_bind.
  pose proof (load_rows_spec w3 name c Hf3 (Z.to_nat W) (Z.to_nat (row_padding W))
                ltac:(lia) (Z.to_nat H) 0 (mkImage W H (Some nd0)) [] nd0
                (Z.to_nat (fh_offset fh))) as Hload.
  rewrite !Z2Nat.id in Hload by lia. cbn [app Z.of_nat] in Hload.
  change (Z.of_nat 0) with 0 in Hload.
  rewrite Hload; [|cbn [width]; lia|done|nia|unfold INT_MAX; lia|nia].
  unfold mbind, io_bind, fclose, mret, io_ret.
  rewrite (drop_ge nd0) by nia. rewrite app_nil_r.
  replace (3 * Z.to_nat W + Z.to_nat (row_padding W))%nat
    with (Z.to_nat (3 * W + row_padding W)) by lia.
  reflexivity.
Qed.

(** ** Headers on the wire *)

Lemma file_header_wire (fh : BMPFileHeader) (rest : list byte) :
  file_header_of_bytes (take 14 (file_header_bytes fh ++ rest)) =
    mkFileHeader (to_u16 (fh_type fh)) (to_u32 (fh_size fh))
                 (to_u16 (fh_reserved1 fh)) (to_u16 (fh_reserved2 fh))
                 (to_u32 (fh_offset fh)).
Proof.
  unfold file_header_of_bytes, file_header_bytes, field.
  cbn [le_split app take drop].
  f_equal; first [exact (le_combine_split 2 _) | exact (le_combine_split 4 _)].
Qed.

Lemma info_header_wire (ih : BMPInfoHeader) (rest : list byte) :
  info_header_of_bytes (take 40 (info_header_bytes ih ++ rest)) =
    mkInfoHeader (to_u32 (ih_size ih)) (to_int (to_u32 (ih_width ih)))
                 (to_int (to_u32 (ih_height ih)))
                 (to_u16 (ih_planes ih)) (to_u16 (ih_bit_count ih))
                 (to_u32 (ih_compression ih)) (to_u32 (ih_size_image ih))
                 (to_int (to_u32 (ih_x_pixels_per_meter ih)))
                 (to_int (to_u32 (ih_y_pixels_per_meter ih)))
                 (to_u32 (ih_colors_used ih)) (to_u32 (ih_colors_important ih)).
Proof.
  unfold info_header_of_bytes, info_header_bytes, field.
  cbn [le_split app take drop].
  f_equal;
    first [exact (le_combine_split 2 _) | exact (le_combine_split 4 _)
          | f_equal; exact (le_combine_split 4 _)].
Qed.

Lemma file_header_bytes_length (fh : BMPFileHeader) :
  length (file_header_bytes fh) = 14%nat.
Proof. reflexivity. Qed.

Lemma info_header_bytes_length (ih : BMPInfoHeader) :
  length (info_header_bytes ih) = 40%nat.
Proof. reflexivity. Qed.

Lemma to_int_to_u32 (z : Z) : INT_MIN <= z <= INT_MAX → to_int (to_u32 z) = z.
Proof.
  unfold INT_MIN, INT_MAX, to_int, to_u32. intros Hz.
  rewrite Zplus_mod_idemp_l. rewrite Z.mod_small by lia. lia.
Qed.

(** ** Rows on the wire *)

Lemma padded_rows_length (wn padn n : nat) (buf : list Pixel) :
  (n * wn <= length buf)%nat →
  length (padded_rows wn padn buf n) = (n * (3 * wn + padn))%nat.
Proof.
  revert buf. induction n as [|n IH]; intros buf Hlen; [done|].
  cbn [padded_rows]. rewrite !length_app, bytes_of_pixels_length, length_replicate.
  rewrite length_take, IH by (rewrite length_drop; lia). lia.
Qed.

(** Reading back, with the stride of the writer, what the writer stored. *)
Lemma stored_padded_rows (wn padn n : nat) (pre : list byte) (buf : list Pixel) :
  (n * wn <= length buf)%nat →
  stored_rows wn (3 * wn + padn) (pre ++ padded_rows wn padn buf n) (length pre) n =
    take (n * wn) buf.
Proof.
  revert pre buf. induction n as [|n IH]; intros pre buf Hlen; [done|].
  cbn [stored_rows padded_rows].
  set (row := bytes_of_pixels (take wn buf)).
  assert (Hrow : length row = (3 * wn)%nat)
    by (subst row; rewrite bytes_of_pixels_length, length_take; lia).
  rewrite drop_app_length.
  rewrite (take_app_length' row) by done.
  subst row. rewrite <- (app_nil_r (bytes_of_pixels (take wn buf))) at 1.
  rewrite pixels_of_bytes_pixels. cbn [pixels_of_bytes]. rewrite app_nil_r.
  set (row := bytes_of_pixels (take wn buf)) in *.
  replace (pre ++ row ++ replicate padn Byte.x00 ++ padded_rows wn padn (drop wn buf) n)
    with ((pre ++ row ++ replicate padn Byte.x00) ++ padded_rows wn padn (drop wn buf) n)
    by now rewrite <- !app_assoc.
  replace (length pre + (3 * wn + padn))%nat
    with (length (pre ++ row ++ replicate padn Byte.x00))
    by (rewrite !length_app, Hrow, length_replicate; lia).
  rewrite IH by (rewrite length_drop; lia).
  rewrite take_take_drop. f_equal.
Qed.

(** ** Round trip *)

Lemma saved_file_length (im : BMPImage) (buf : list Pixel) :
  well_formed im buf →
  Z.of_nat (length (saved_file im buf)) =
    54 + height im * (3 * width im + row_padding (width im)).
Proof.
  intros (Hdata & HW & HH & Hlen & Hmax).
  pose proof (row_padding_range (width im)).
  unfold saved_file, saved_headers. cbv zeta.
  rewrite !length_app, file_header_bytes_length, info_header_bytes_length.
  rewrite padded_rows_length by nia. nia.
Qed.

(** What [bmp_load] finds in a file written by [bmp_save]. *)
Lemma bmp_load_saved_file (im : BMPImage) (buf : list Pixel) (name : string)
    (err_out : option BMPError) (w : world) :
  well_formed im buf →
  files w !! name = Some (saved_file im buf) →
  sizeof_BMPImage + sizeof_Pixel * (width im * height im) <= heap_avail w →
  bmp_load name err_out w =
    Ret ((Some im, set_err err_out BMP_SUCCESS),
         set_heap_avail (heap_avail w - sizeof_BMPImage
                         - sizeof_Pixel * (width im * height im)) w).
Proof.
  intros Hwf Hf Havail.
  pose proof Hwf as (Hdata & HW & HH & Hlen & Hmax).
  pose proof (row_padding_range (width im)) as Hpad.
  pose proof (saved_file_length im buf Hwf) as Hsize.
  assert (width im <= INT_MAX ∧ height im <= INT_MAX) as [HWmax HHmax] by nia.
  assert (Hfh : file_header_of_bytes (take 14 (saved_file im buf)) =
                mkFileHeader 0x4D42
                  (to_u32 (to_u32 (54 + to_u32 ((width im * 3 + row_padding (width im))
                                                * height im)))) 0 0 54).
  { unfold saved_file, saved_headers. cbv zeta.
    rewrite <- !app_assoc. now rewrite file_header_wire. }
  assert (Hih : ∃ isz, info_header_of_bytes (take 40 (drop 14 (saved_file im buf))) =
                mkInfoHeader 40 (width im) (height im) 1 24 0 isz 2835 2835 0 0).
  { unfold saved_file, saved_headers. cbv zeta.
    rewrite <- !app_assoc.
    rewrite drop_app_length' by reflexivity.
    rewrite info_header_wire. cbn [ih_size ih_width ih_height ih_planes ih_bit_count
      ih_compression ih_size_image ih_x_pixels_per_meter ih_y_pixels_per_meter
      ih_colors_used ih_colors_important].
    rewrite !to_int_to_u32 by (unfold INT_MIN, INT_MAX in *; lia).
    eexists. reflexivity. }
  destruct Hih as [isz Hih].
  pose proof (bmp_load_spec w name (saved_file im buf) err_out Hf) as Hload.
  cbv zeta in Hload. rewrite Hfh, Hih in Hload.
  cbn [fh_type fh_offset ih_width ih_height ih_bit_count] in Hload.
  rewrite (Z.abs_eq (height im)) in Hload by lia.
  rewrite (to_int_id (height im)) in Hload by (unfold INT_MIN, INT_MAX in *; lia).
  rewrite Hload; [|lia|done|done|done|done|done|done|lia].
  assert (Hrows : stored_rows (Z.to_nat (width im))
                    (Z.to_nat (3 * width im + row_padding (width im)))
                    (saved_file im buf) (Z.to_nat 54) (Z.to_nat (height im)) = buf).
  { unfold saved_file.
    replace (Z.to_nat (3 * width im + row_padding (width im)))
      with (3 * Z.to_nat (width im) + Z.to_nat (row_padding (width im)))%nat by lia.
    change (Z.to_nat 54) with (length (saved_headers im)).
    rewrite stored_padded_rows by nia.
    apply take_ge. nia. }
  rewrite Hrows. destruct im as [W H d]. cbn [width height data] in *. now subst d.
Qed.

(** C1: for every image with positive width and height whose buffer has
    exactly [width * height] pixels, [bmp_save] followed by [bmp_load] of
    the file it wrote yields an image with the same width, the same height
    and the same pixels. *)
Theorem bmp_save_load_roundtrip (im : BMPImage) (buf : list Pixel) (name : string)
    (err_out : option BMPError) (w : world) :
  well_formed im buf →
  name ∉ locked w →
  sizeof_BMPImage + sizeof_Pixel * (width im * height im) <= heap_avail w →
  ∃ w1 w2 : world,
    bmp_save (Some im) name w = Ret (BMP_SUCCESS, w1)
    ∧ bmp_load name err_out w1 = Ret ((Some im, set_err err_out BMP_SUCCESS), w2).
Proof.
  intros Hwf Hfree Havail.
  exists (set_files (<[name := saved_file im buf]> (files w)) w).
  eexists. split.
  - now apply bmp_save_spec.
  - apply (bmp_load_saved_file im buf); [done| |now destruct w].
    destruct w. cbn [files set_files]. apply lookup_insert_eq.
Qed.

Lemma bmp_save_load_roundtrip_witness :
  ∃ w1 w2 : world,
    bmp_save (Some Sample.img22) "image.bmp" Sample.w0 = Ret (BMP_SUCCESS, w1)
    ∧ bmp_load "image.bmp" (Some BMP_ERR_FILE_NOT_FOUND) w1 =
        Ret ((Some Sample.img22, Some BMP_SUCCESS), w2).
Proof.
  apply (bmp_save_load_roundtrip Sample.img22
           [Sample.p0; Sample.p1; Sample.p2; Sample.p3] "image.bmp"
           (Some BMP_ERR_FILE_NOT_FOUND) Sample.w0).
  - repeat split; vm_compute; congruence.
  - apply not_elem_of_empty.
  - vm_compute; congruence.
Defined.

(** ** Rejected and missing files *)

(** Reading a header from any file: the bytes the file still has replace
    the start of the uninitialised object. *)
Lemma fread_header_any (w : world) (name : string) (c : list byte) (pos n : nat) :
  files w !! name = Some c →
  let got := take n (drop pos c) in
  fread (uninit_bytes n w) (Z.of_nat n) 1 (Some (mkFILE name (Z.of_nat pos))) w =
    Ret ((got ++ drop (length got) (uninit_bytes n w),
          Some (mkFILE name (Z.of_nat (pos + length got)))), w).
Proof.
  intros Hf got. unfold fread. cbn [fpath fpos]. rewrite Hf.
  cbn [default from_option id]. rewrite Z.mul_1_r, !Nat2Z.id. fold got.
  assert (length got <= n)%nat by (subst got; rewrite length_take; lia).
  rewrite uninit_bytes_length.
  destruct (Nat.ltb_spec n (length got)); [lia|].
  now rewrite Nat2Z.inj_add.
Qed.

Lemma field_prefix (o n : nat) (bs rest : list byte) :
  (o + n <= length bs)%nat → field o n (bs ++ rest) = field o n bs.
Proof.
  intros Hlen. unfold field.
  rewrite drop_app_le by lia.
  now rewrite take_app_le by (rewrite length_drop; lia).
Qed.

Lemma field_window (o n p m : nat) (bs : list byte) :
  (o + n <= m)%nat → field o n (take m (drop p bs)) = field (p + o) n bs.
Proof.
  intros Hlen. unfold field.
  rewrite skipn_firstn_comm, take_take, drop_drop.
  now replace (n `min` (m - o))%nat with n by lia.
Qed.

(** C3: for every byte source whose file-header magic differs from the
    signature 0x4D42 ('B','M' read as a little-endian 16-bit value) or
    whose bits-per-pixel field differs from 24, [bmp_load] returns NULL,
    reports [BMP_ERR_INVALID_FORMAT] through [err_out], and allocates
    nothing: the world (heap, files, open streams) is as before. *)
Theorem bmp_load_invalid_format (w : world) (name : string) (c : list byte)
    (err_out : option BMPError) :
  files w !! name = Some c →
  ((2 <= length c)%nat ∧ field 0 2 c ≠ 0x4D42)
  ∨ ((30 <= length c)%nat ∧ field 28 2 c ≠ 24) →
  bmp_load name err_out w = Ret ((None, set_err err_out BMP_ERR_INVALID_FORMAT), w).
Proof.
  intros Hf Hbad. unfold bmp_load.
  unfold mbind at 1, io_bind. rewrite (fopen_read_existing w name c Hf).
  set (w1 := set_open_streams _ w).
  assert (Hf1 : files w1 !! name = Some c) by now destruct w.
  unfold mbind at 1, io_bind. unfold alloca at 1.
  unfold mbind at 1, io_bind. unfold alloca at 1.
  change (Z.to_nat sizeof_BMPFileHeader) with 14%nat.
  change (Z.to_nat sizeof_BMPInfoHeader) with 40%nat.
  change sizeof_BMPFileHeader with (Z.of_nat 14).
  change sizeof_BMPInfoHeader with (Z.of_nat 40).
  unfold mbind at 1, io_bind.
  rewrite (fread_header_any w1 name c 0 14 Hf1). cbv zeta. rewrite drop_0.
  unfold mbind at 1, io_bind.
  rewrite (fread_header_any w1 name c _ 40 Hf1). cbv zeta.
  set (fhb := take 14 c ++ _). set (ihb := take 40 _ ++ _).
  assert (Hcheck : negb (fh_type (file_header_of_bytes fhb) =? 0x4D42)
                   || negb (ih_bit_count (info_header_of_bytes ihb) =? 24) = true).
  { destruct Hbad as [[Hlen Hmagic]|[Hlen Hbits]].
    - assert (fh_type (file_header_of_bytes fhb) = field 0 2 c) as ->.
      { cbn [fh_type file_header_of_bytes]. subst fhb.
        rewrite field_prefix by (rewrite length_take; lia).
        rewrite <- (drop_0 c) at 1. now rewrite field_window by lia. }
      apply Z.eqb_neq in Hmagic. now rewrite Hmagic.
    - assert (ih_bit_count (info_header_of_bytes ihb) = field 28 2 c) as ->.
      { cbn [ih_bit_count info_header_of_bytes]. subst ihb.
        replace (0 + length (take 14 c))%nat with 14%nat by (rewrite length_take; lia).
        rewrite field_prefix by (rewrite length_take, length_drop; lia).
        now rewrite field_window by lia. }
      apply Z.eqb_neq in Hbits. rewrite Hbits. apply orb_true_r. }
  rewrite Hcheck.
  unfold mbind, io_bind, fclose, mret, io_ret. subst w1. now destruct w.
Qed.

Lemma bmp_load_invalid_format_witness :
  bmp_load "bad.bmp" (Some BMP_SUCCESS) Sample.w_bad =
    Ret ((None, Some BMP_ERR_INVALID_FORMAT), Sample.w_bad).
Proof.
  apply (bmp_load_invalid_format Sample.w_bad "bad.bmp" [Byte.x58; Byte.x58]).
  - apply lookup_singleton_eq.
  - left. split; [simpl; lia | vm_compute; discriminate].
Defined.

Lemma bmp_load_missing (w : world) (name : string) (err_out : option BMPError) :
  files w !! name = None → bmp_load name err_out w = Undef NullStream.
Proof.
  intros Hf. unfold bmp_load, mbind, io_bind, fopen_read. now rewrite Hf.
Qed.

(** C2, on the code: a byte source that cannot be opened.  [bmp_load]
    stores [BMP_ERR_FILE_NOT_FOUND] and then, instead of returning NULL,
    goes on to [fread] from the null stream. *)
Example bmp_load_missing_file :
  bmp_load "missing.bmp" (Some BMP_SUCCESS) Sample.w0 = Undef NullStream.
Proof. now apply bmp_load_missing. Qed.

(** ** The padding law and its two users *)

(** C8: the per-row padding the code computes is
    [p = (4 - (w * 3) mod 4) mod 4] for every width [w] (in particular for
    every non-negative one), with [0 <= p <= 3] and [(w * 3 + p) mod 4 = 0];
    [bmp_save] ends every row it writes with that many zero bytes, and
    [bmp_load] steps from row to row by [3 * width] plus that many bytes. *)
Theorem calculate_padding_law_shared :
  (∀ w : Z,
     let p := calculate_padding w in
     p = (4 - (w * 3) mod 4) mod 4 ∧ 0 <= p <= 3 ∧ (w * 3 + p) mod 4 = 0)
  ∧ (∀ (im : BMPImage) (buf : list Pixel) (name : string) (w : world),
       well_formed im buf → name ∉ locked w →
       let p := (4 - (width im * 3) mod 4) mod 4 in
       bmp_save (Some im) name w =
         Ret (BMP_SUCCESS,
              set_files
                (<[name := saved_headers im
                           ++ padded_rows (Z.to_nat (width im)) (Z.to_nat p) buf
                                (Z.to_nat (height im))]> (files w)) w))
  ∧ (∀ (w : world) (name : string) (c : list byte) (err_out : option BMPError),
       files w !! name = Some c → (54 <= length c)%nat →
       let fh := file_header_of_bytes (take 14 c) in
       let ih := info_header_of_bytes (take 40 (drop 14 c)) in
       let W := ih_width ih in
       let H := to_int (Z.abs (ih_height ih)) in
       let p := (4 - (W * 3) mod 4) mod 4 in
       fh_type fh = 0x4D42 → ih_bit_count ih = 24 →
       0 < W → 0 < H → W * H <= INT_MAX →
       sizeof_BMPImage + sizeof_Pixel * (W * H) <= heap_avail w →
       fh_offset fh + H * (3 * W + p) <= Z.of_nat (length c) →
       ∃ w' : world,
         bmp_load name err_out w =
           Ret ((Some (mkImage W H
                         (Some (stored_rows (Z.to_nat W) (Z.to_nat (3 * W + p)) c
                                  (Z.to_nat (fh_offset fh)) (Z.to_nat H)))),
                 set_err err_out BMP_SUCCESS), w')).
Proof.
  split; [|split].
  - intros w p. subst p. rewrite calculate_padding_row_padding.
    split; [reflexivity|]. apply (padding_law w).
  - intros im buf name w Hwf Hfree p. now apply bmp_save_spec.
  - intros w name c err_out Hf Hlen fh ih W H p Htype Hbits HW HH Hmax Havail Hrows.
    eexists. now apply (bmp_load_spec w name c err_out).
Qed.

Lemma calculate_padding_law_shared_witness :
  (calculate_padding 5 = 1 ∧ 0 <= calculate_padding 5 <= 3
   ∧ (5 * 3 + calculate_padding 5) mod 4 = 0)
  ∧ bmp_save (Some Sample.img31) "image.bmp" Sample.w0 =
      Ret (BMP_SUCCESS,
           set_files
             (<["image.bmp" := saved_headers Sample.img31
                  ++ padded_rows 3 3 [Sample.p0; Sample.p1; Sample.p2] 1]>
                (files Sample.w0)) Sample.w0)
  ∧ ∃ w' : world,
      bmp_load "image.bmp" None Sample.w_saved =
        Ret ((Some (mkImage 3 1
                      (Some (stored_rows 3 12
                               (saved_file Sample.img31 [Sample.p0; Sample.p1; Sample.p2])
                               54 1))), None), w').
Proof.
  pose proof calculate_padding_law_shared as (Hlaw & Hsave & Hload).
  split; [|split].
  - exact (Hlaw 5).
  - apply (Hsave Sample.img31 [Sample.p0; Sample.p1; Sample.p2] "image.bmp" Sample.w0).
    + repeat split; vm_compute; congruence.
    + apply not_elem_of_empty.
  - apply (Hload Sample.w_saved "image.bmp"
             (saved_file Sample.img31 [Sample.p0; Sample.p1; Sample.p2]) None).
    + apply lookup_singleton_eq.
    + vm_compute. lia.
    + vm_compute; reflexivity.
    + vm_compute; reflexivity.
    + vm_compute; reflexivity.
    + vm_compute; reflexivity.
    + vm_compute; congruence.
    + vm_compute; congruence.
    + vm_compute; congruence.
Defined.

(** * Further properties *)

(** ** Invert *)

Lemma invert_channel (c : byte) :
  byte.of_Z (to_u8 (255 - byte.unsigned (byte.of_Z (to_u8 (255 - byte.unsigned c))))) = c.
Proof.
  pose proof (byte.unsigned_range c) as Hc.
  rewrite (to_u8_id (255 - byte.unsigned c)) by lia.
  rewrite byte_unsigned_of_Z_small by lia.
  rewrite to_u8_id by lia.
  replace (255 - (255 - byte.unsigned c)) with (byte.unsigned c) by lia.
  apply byte.of_Z_unsigned.
Qed.

Lemma invert_pixel_involutive (p : Pixel) : invert_pixel (invert_pixel p) = p.
Proof.
  destruct p as [b g r]. unfold invert_pixel. cbn [blue green red].
  now rewrite !invert_channel.
Qed.

Lemma invert_pixel_channels (p : Pixel) :
  byte.unsigned (blue (invert_pixel p)) = 255 - byte.unsigned (blue p)
  ∧ byte.unsigned (green (invert_pixel p)) = 255 - byte.unsigned (green p)
  ∧ byte.unsigned (red (invert_pixel p)) = 255 - byte.unsigned (red p).
Proof.
  pose proof (byte.unsigned_range (blue p)).
  pose proof (byte.unsigned_range (green p)).
  pose proof (byte.unsigned_range (red p)).
  unfold invert_pixel. cbn [blue green red].
  rewrite !to_u8_id, !byte_unsigned_of_Z_small by lia. done.
Qed.

Section Invert.

Context (im : BMPImage).

Let W : Z := width im.

(** The inner loop complements the [n] pixels from column [j] of row [i]. *)
Lemma invert_cols_spec (n : nat) (i j : Z) (buf : list Pixel) :
  0 <= i → 0 <= j → 0 < W → j + Z.of_nat n <= W →
  i * W + W <= Z.of_nat (length buf) → Z.of_nat (length buf) <= INT_MAX →
  ∃ buf' : list Pixel,
    invert_cols n j i im buf = Ret buf'
    ∧ length buf' = length buf
    ∧ ∀ k : nat,
        buf' !! k =
          if decide (i * W + j <= Z.of_nat k < i * W + j + Z.of_nat n)
          then invert_pixel <$> buf !! k
          else buf !! k.
Proof.
  intros Hi. revert j buf. induction n as [|n IH]; intros j buf Hj HW Hjn Hrow Hmax.
  - exists buf. split; [done|]. split; [done|]. intros k. case_decide; [lia|done].
  - cbn [invert_cols]. fold W. unfold INT_MAX in Hmax.
    assert (0 <= i * W) by nia.
    rewrite (to_int_id (i * W)) by (unfold INT_MIN, INT_MAX; lia).
    rewrite (to_int_id (i * W + j)) by (unfold INT_MIN, INT_MAX; lia).
    assert (is_Some (buf !! Z.to_nat (i * W + j))) as [p Hp]
      by (apply lookup_lt_is_Some; lia).
    rewrite (array_get_lookup buf _ p) by (done || lia).
    cbn [mbind outcome_bind].
    rewrite array_set_insert by lia. cbn [mbind outcome_bind].
    destruct (IH (j + 1) (<[Z.to_nat (i * W + j) := invert_pixel p]> buf))
      as (buf' & Hrun & Hlen & Hcells);
      [lia | lia | lia | rewrite length_insert; lia
      | rewrite length_insert; unfold INT_MAX; lia |].
    exists buf'. split; [exact Hrun|]. split; [now rewrite Hlen, length_insert|].
    intros k. rewrite Hcells.
    destruct (decide (k = Z.to_nat (i * W + j))) as [->|Hne].
    + rewrite list_lookup_insert_eq by lia. rewrite Hp.
      repeat case_decide; try lia; done.
    + rewrite list_lookup_insert_ne by done.
      repeat case_decide; try lia; done.
Qed.

(** The outer loop complements the rows [i .. i + n - 1]. *)
Lemma invert_rows_spec (n : nat) (i : Z) (buf : list Pixel) :
  0 <= i → 0 < W → (i + Z.of_nat n) * W <= Z.of_nat (length buf) →
  Z.of_nat (length buf) <= INT_MAX →
  ∃ buf' : list Pixel,
    invert_rows n i im buf = Ret buf'
    ∧ length buf' = length buf
    ∧ ∀ k : nat,
        buf' !! k =
          if decide (i * W <= Z.of_nat k < (i + Z.of_nat n) * W)
          then invert_pixel <$> buf !! k
          else buf !! k.
Proof.
  revert i buf. induction n as [|n IH]; intros i buf Hi HW Hrows Hmax.
  - exists buf. split; [done|]. split; [done|]. intros k. case_decide; [lia|done].
  - cbn [invert_rows]. fold W.
    destruct (invert_cols_spec (Z.to_nat W) i 0 buf) as (buf1 & -> & Hlen1 & Hcells1);
      [lia | lia | lia | lia | nia | lia |].
    cbn [mbind outcome_bind].
    destruct (IH (i + 1) buf1) as (buf' & Hrun & Hlen & Hcells);
      [lia | lia | rewrite Hlen1; nia | rewrite Hlen1; lia |].
    exists buf'. split; [exact Hrun|]. split; [congruence|].
    intros k. rewrite Hcells, Hcells1.
    repeat case_decide; try nia; done.
Qed.

End Invert.

Lemma bmp_invert_well_formed (im : BMPImage) (buf : list Pixel) :
  well_formed im buf →
  bmp_invert (Some im) =
    Ret (Some (mkImage (width im) (height im) (Some (map invert_pixel buf)))).
Proof.
  intros (Hdata & HW & HH & Hlen & Hmax).
  unfold bmp_invert. rewrite Hdata.
  destruct (invert_rows_spec im (Z.to_nat (height im)) 0 buf)
    as (buf' & -> & Hlen' & Hcells); [lia | lia | nia | lia |].
  cbn [mbind outcome_bind]. do 4 f_equal.
  apply list_eq. intros k. rewrite Hcells.
  change (map invert_pixel buf) with (invert_pixel <$> buf).
  rewrite list_lookup_fmap.
  case_decide; [done|].
  rewrite (lookup_ge_None_2 buf) by nia. done.
Qed.

(** X1: on a well-formed image [bmp_invert] replaces every channel [c] of
    every pixel by [255 - c], keeps width and height, and undoes itself:
    a second call gives back the original image. *)
Theorem bmp_invert_involutive (im : BMPImage) (buf : list Pixel) :
  well_formed im buf →
  ∃ buf' : list Pixel,
    let im' := mkImage (width im) (height im) (Some buf') in
    bmp_invert (Some im) = Ret (Some im')
    ∧ length buf' = length buf
    ∧ (∀ (k : nat) (p : Pixel), buf !! k = Some p →
         ∃ q : Pixel,
           buf' !! k = Some q
           ∧ byte.unsigned (blue q) = 255 - byte.unsigned (blue p)
           ∧ byte.unsigned (green q) = 255 - byte.unsigned (green p)
           ∧ byte.unsigned (red q) = 255 - byte.unsigned (red p))
    ∧ bmp_invert (Some im') = Ret (Some im).
Proof.
  intros Hwf. pose proof Hwf as (Hdata & HW & HH & Hlen & Hmax).
  exists (map invert_pixel buf). cbv zeta.
  split; [apply (bmp_invert_well_formed im buf Hwf)|].
  split; [apply length_map|]. split.
  - intros k p Hp. exists (invert_pixel p). split.
    + change (map invert_pixel buf) with (invert_pixel <$> buf).
      now rewrite list_lookup_fmap, Hp.
    + apply invert_pixel_channels.
  - rewrite (bmp_invert_well_formed _ (map invert_pixel buf)).
    + cbn [width height]. rewrite map_map.
      rewrite (map_ext _ id) by apply invert_pixel_involutive.
      rewrite map_id. destruct im; cbn [width height data] in *. now subst.
    + unfold well_formed. cbn [data width height]. rewrite length_map. done.
Qed.

Lemma bmp_invert_involutive_witness :
  ∃ buf' : list Pixel,
    let im' := mkImage 2 2 (Some buf') in
    bmp_invert (Some Sample.img22) = Ret (Some im')
    ∧ length buf' = 4%nat
    ∧ (∀ (k : nat) (p : Pixel),
         [Sample.p0; Sample.p1; Sample.p2; Sample.p3] !! k = Some p →
         ∃ q : Pixel,
           buf' !! k = Some q
           ∧ byte.unsigned (blue q) = 255 - byte.unsigned (blue p)
           ∧ byte.unsigned (green q) = 255 - byte.unsigned (green p)
           ∧ byte.unsigned (red q) = 255 - byte.unsigned (red p))
    ∧ bmp_invert (Some im') = Ret (Some Sample.img22).
Proof.
  apply (bmp_invert_involutive Sample.img22
           [Sample.p0; Sample.p1; Sample.p2; Sample.p3]).
  repeat split; vm_compute; congruence.
Defined.

(** ** Horizontal flip *)

Section Flip.

Context (im : BMPImage) (buf : list Pixel).
Context (Hwf : well_formed im buf).

Let W : Z := width im.
Let H : Z := height im.

Lemma flip_size_facts :
  0 < W ∧ 0 < H ∧ Z.of_nat (length buf) = W * H ∧ W * H <= INT_MAX.
Proof. destruct Hwf as (_ & ? & ? & ? & ?). subst W H. auto. Qed.

Lemma flip_indices (i j : Z) :
  0 <= i < H → 0 <= j < W →
  to_int (to_int (i * W) + to_int (to_int (W - 1) - j)) = i * W + (W - 1 - j)
  ∧ to_int (to_int (i * W) + j) = i * W + j
  ∧ 0 <= i * W ∧ i * W + W <= W * H.
Proof.
  destruct flip_size_facts as (HW & HH & Hlen & Hmax). intros Hi Hj.
  assert (0 <= i * W) by nia.
  assert (i * W + W <= W * H) by nia.
  unfold INT_MAX in Hmax.
  rewrite (to_int_id (i * W)) by (unfold INT_MIN, INT_MAX; lia).
  rewrite (to_int_id (W - 1)) by (unfold INT_MIN, INT_MAX; nia).
  rewrite (to_int_id (W - 1 - j)) by (unfold INT_MIN, INT_MAX; nia).
  rewrite !to_int_id by (unfold INT_MIN, INT_MAX; lia). done.
Qed.

(** The inner loop fills, in row [i] of the new block, the columns
    [W - 1 - j] for [j .. j + n - 1], and nothing else. *)
Lemma flip_cols_spec (n : nat) (i j : Z) (nd : list Pixel) :
  0 <= i < H → 0 <= j → j + Z.of_nat n <= W → Z.of_nat (length nd) = W * H →
  ∃ nd' : list Pixel,
    flip_cols n j i im buf nd = Ret nd'
    ∧ length nd' = length nd
    ∧ ∀ r c, 0 <= r < H → 0 <= c < W →
        nd' !! Z.to_nat (r * W + c) =
          if decide (r = i ∧ j <= W - 1 - c < j + Z.of_nat n)
          then buf !! Z.to_nat (i * W + (W - 1 - c))
          else nd !! Z.to_nat (r * W + c).
Proof.
  destruct flip_size_facts as (HW & HH & Hlen & Hmax).
  revert j nd. induction n as [|n IH]; intros j nd Hi Hj Hjn Hnd.
  - exists nd. split; [done|]. split; [done|]. intros r c Hr Hc.
    case_decide; [lia|done].
  - cbn [flip_cols]. fold W.
    destruct (flip_indices i j) as (-> & -> & Hrow0 & Hrow1); [lia..|].
    assert (is_Some (buf !! Z.to_nat (i * W + j))) as [p Hp]
      by (apply lookup_lt_is_Some; lia).
    rewrite (array_get_lookup buf _ p) by (done || lia).
    cbn [mbind outcome_bind].
    rewrite array_set_insert by lia. cbn [mbind outcome_bind].
    destruct (IH (j + 1) (<[Z.to_nat (i * W + (W - 1 - j)) := p]> nd))
      as (nd' & Hrun & Hlen' & Hcells);
      [lia | lia | lia | rewrite length_insert; lia |].
    exists nd'. split; [exact Hrun|]. split; [now rewrite Hlen', length_insert|].
    intros r c Hr Hc. rewrite Hcells by done.
    destruct (decide (r = i ∧ c = W - 1 - j)) as [[-> ->]|Hne].
    + rewrite list_lookup_insert_eq by lia.
      replace (W - 1 - (W - 1 - j)) with j by lia.
      repeat case_decide; try lia; done.
    + rewrite list_lookup_insert_ne.
      * repeat case_decide; try lia; done.
      * intros Heq. apply Hne.
        assert (0 <= r * W) by nia.
        apply (cell_index_inj W r c i (W - 1 - j)); lia.
Qed.

Lemma flip_rows_spec (n : nat) (i : Z) (nd : list Pixel) :
  0 <= i → i + Z.of_nat n <= H → Z.of_nat (length nd) = W * H →
  ∃ nd' : list Pixel,
    flip_rows n i im buf nd = Ret nd'
    ∧ length nd' = length nd
    ∧ ∀ r c, 0 <= r < H → 0 <= c < W →
        nd' !! Z.to_nat (r * W + c) =
          if decide (i <= r < i + Z.of_nat n)
          then buf !! Z.to_nat (r * W + (W - 1 - c))
          else nd !! Z.to_nat (r * W + c).
Proof.
  destruct flip_size_facts as (HW & HH & Hlen & Hmax).
  revert i nd. induction n as [|n IH]; intros i nd Hi Hin Hnd.
  - exists nd. split; [done|]. split; [done|]. intros r c Hr Hc.
    case_decide; [lia|done].
  - cbn [flip_rows]. fold W.
    destruct (flip_cols_spec (Z.to_nat W) i 0 nd) as (nd1 & -> & Hlen1 & Hcells1);
      [lia..|].
    cbn [mbind outcome_bind].
    destruct (IH (i + 1) nd1) as (nd' & Hrun & Hlen' & Hcells);
      [lia | lia | lia |].
    exists nd'. split; [exact Hrun|]. split; [congruence|].
    intros r c Hr Hc. rewrite Hcells, Hcells1 by done.
    destruct (decide (r = i)) as [->|Hri];
      repeat case_decide; try lia; done.
Qed.

(** What [bmp_flip_horizontal] does to a well-formed image when the
    allocator has room for the new buffer. *)
Lemma bmp_flip_horizontal_spec (w : world) :
  sizeof_Pixel * (W * H) <= heap_avail w →
  ∃ nd : list Pixel,
    bmp_flip_horizontal (Some im) w = Ret (Some (mkImage W H (Some nd)), w)
    ∧ length nd = length buf
    ∧ ∀ r c, 0 <= r < H → 0 <= c < W →
        nd !! Z.to_nat (r * W + c) = buf !! Z.to_nat (r * W + (W - 1 - c)).
Proof.
  destruct flip_size_facts as (HW & HH & Hlen & Hmax). intros Havail.
  unfold bmp_flip_horizontal. destruct Hwf as (-> & _). fold W H.
  assert (0 < W * H) by nia.
  unfold INT_MAX in Hmax.
  rewrite (to_int_id (W * H)) by (unfold INT_MIN, INT_MAX; nia).
  rewrite (to_size_id (W * H)) by nia.
  rewrite to_size_id by (unfold sizeof_Pixel; nia).
  replace (W * H * sizeof_Pixel) with (sizeof_Pixel * (W * H)) by lia.
  destruct (malloc_pixels_enough (W * H) w) as (nd0 & Hmalloc & Hnd0); [lia..|].
  destruct (flip_rows_spec (Z.to_nat H) 0 nd0) as (nd & Hrun & Hlen' & Hcells);
    [lia..|].
  exists nd. split; [|split].
  - unfold mbind at 1, io_bind. rewrite Hmalloc.
    unfold mbind at 1, io_bind. unfold lift at 1. rewrite Hrun.
    unfold mbind, io_bind, free_pixels, free, mret, io_ret. cbn [heap_avail set_heap_avail].
    do 2 f_equal.
    replace (heap_avail w - sizeof_Pixel * (W * H) + sizeof_Pixel * Z.of_nat (length buf))
      with (heap_avail w) by lia.
    apply set_heap_avail_restore.
  - lia.
  - intros r c Hr Hc. rewrite Hcells by done.
    case_decide; [done|lia].
Qed.

End Flip.

Lemma buffer_eq_cells (W H : Z) (a b : list Pixel) :
  0 < W → Z.of_nat (length a) = W * H → Z.of_nat (length b) = W * H →
  (∀ r c, 0 <= r < H → 0 <= c < W →
     a !! Z.to_nat (r * W + c) = b !! Z.to_nat (r * W + c)) →
  a = b.
Proof.
  intros HW Ha Hb Hcells. apply list_eq. intros k.
  destruct (decide (k < length a)%nat) as [Hk|Hk].
  - pose proof (Z.div_mod (Z.of_nat k) W ltac:(lia)) as Hdm.
    pose proof (Z.mod_pos_bound (Z.of_nat k) W ltac:(lia)) as Hc.
    set (r := Z.of_nat k / W) in *. set (c := Z.of_nat k mod W) in *.
    assert (0 <= r < H) by nia.
    replace k with (Z.to_nat (r * W + c)) by lia.
    now apply Hcells.
  - rewrite !lookup_ge_None_2; [done|lia|lia].
Qed.

Lemma well_formed_same_size (im : BMPImage) (buf nd : list Pixel) :
  well_formed im buf → length nd = length buf →
  well_formed (mkImage (width im) (height im) (Some nd)) nd.
Proof.
  intros (Hdata & Hw & Hh & Hlen & Hmax) Hnd.
  unfold well_formed. cbn [data width height].
  repeat split; try done; lia.
Qed.

(** X2: on a well-formed image, with room for the new buffer,
    [bmp_flip_horizontal] keeps width and height and moves the pixel of
    index [i * width + j] to index [i * width + (width - 1 - j)]: every
    row is mirrored in place.  A second call gives back the original
    image, and the world is as before after each call. *)
Theorem bmp_flip_horizontal_mirror (im : BMPImage) (buf : list Pixel) (w : world) :
  well_formed im buf →
  sizeof_Pixel * (width im * height im) <= heap_avail w →
  ∃ nd : list Pixel,
    let im' := mkImage (width im) (height im) (Some nd) in
    bmp_flip_horizontal (Some im) w = Ret (Some im', w)
    ∧ length nd = length buf
    ∧ (∀ i j, 0 <= i < height im → 0 <= j < width im →
         nd !! Z.to_nat (i * width im + (width im - 1 - j)) =
         buf !! Z.to_nat (i * width im + j))
    ∧ bmp_flip_horizontal (Some im') w = Ret (Some im, w).
Proof.
  intros Hwf Havail. pose proof Hwf as (Hdata & HW & HH & Hlen & Hmax).
  destruct (bmp_flip_horizontal_spec im buf Hwf w Havail) as (nd & Hrun & Hlen1 & E1).
  pose proof (well_formed_same_size im buf nd Hwf Hlen1) as Hwf1.
  destruct (bmp_flip_horizontal_spec _ nd Hwf1 w) as (nd2 & Hrun2 & Hlen2 & E2);
    [cbn [width height]; lia|].
  cbn [width height] in Hrun2, E2.
  exists nd. cbv zeta. split; [exact Hrun|]. split; [exact Hlen1|]. split.
  - intros i j Hi Hj. rewrite E1 by lia. do 2 f_equal. lia.
  - rewrite Hrun2. do 3 f_equal.
    assert (nd2 = buf) as ->; [|destruct im; simpl in *; congruence].
    apply (buffer_eq_cells (width im) (height im)); [lia..|].
    intros r c Hr Hc. rewrite E2, E1 by lia. do 2 f_equal. lia.
Qed.

Lemma bmp_flip_horizontal_mirror_witness :
  ∃ nd : list Pixel,
    let im' := mkImage 3 1 (Some nd) in
    bmp_flip_horizontal (Some Sample.img31) Sample.w0 = Ret (Some im', Sample.w0)
    ∧ length nd = 3%nat
    ∧ (∀ i j, 0 <= i < 1 → 0 <= j < 3 →
         nd !! Z.to_nat (i * 3 + (3 - 1 - j)) =
         [Sample.p0; Sample.p1; Sample.p2] !! Z.to_nat (i * 3 + j))
    ∧ bmp_flip_horizontal (Some im') Sample.w0 = Ret (Some Sample.img31, Sample.w0).
Proof.
  apply (bmp_flip_horizontal_mirror Sample.img31 [Sample.p0; Sample.p1; Sample.p2]).
  - repeat split; vm_compute; congruence.
  - vm_compute; congruence.
Defined.

Lemma allocation_failure_unchanged (im : BMPImage) (buf : list Pixel) (w : world) :
  well_formed im buf →
  heap_avail w < sizeof_Pixel * (width im * height im) →
  bmp_rotate_right (Some im) w = Ret (Some im, w)
  ∧ bmp_flip_horizontal (Some im) w = Ret (Some im, w).
Proof.
  intros (Hdata & HW & HH & Hlen & Hmax) Havail.
  assert (0 < width im * height im) by nia.
  unfold INT_MAX in Hmax.
  unfold bmp_rotate_right, bmp_flip_horizontal. rewrite Hdata. cbv zeta.
  rewrite (to_int_id (height im * width im)) by (unfold INT_MIN, INT_MAX; nia).
  rewrite (to_int_id (width im * height im)) by (unfold INT_MIN, INT_MAX; nia).
  rewrite (to_size_id (height im * width im)), (to_size_id (width im * height im)) by nia.
  rewrite !to_size_id by (unfold sizeof_Pixel; nia).
  unfold mbind, io_bind, malloc_pixels, malloc.
  destruct (Z.leb_spec (height im * width im * sizeof_Pixel) (heap_avail w)); [lia|].
  destruct (Z.leb_spec (width im * height im * sizeof_Pixel) (heap_avail w)); [lia|].
  done.
Qed.


(** X3: when [malloc] cannot provide the new buffer, [bmp_rotate_right]
    and [bmp_flip_horizontal] return with the image (width, height, buffer)
    and the world exactly as they were. *)
Theorem transforms_allocation_failure (im : BMPImage) (buf : list Pixel) (w : world) :
  well_formed im buf →
  heap_avail w < sizeof_Pixel * (width im * height im) →
  bmp_rotate_right (Some im) w = Ret (Some im, w)
  ∧ bmp_flip_horizontal (Some im) w = Ret (Some im, w).
Proof. apply allocation_failure_unchanged. Qed.

Lemma transforms_allocation_failure_witness :
  bmp_rotate_right (Some Sample.img22) Sample.w_full = Ret (Some Sample.img22, Sample.w_full)
  ∧ bmp_flip_horizontal (Some Sample.img22) Sample.w_full =
      Ret (Some Sample.img22, Sample.w_full).
Proof.
  apply (transforms_allocation_failure Sample.img22
           [Sample.p0; Sample.p1; Sample.p2; Sample.p3]).
  - repeat split; vm_compute; congruence.
  - vm_compute; reflexivity.
Defined.

(** ** The transforms through the accessors *)

Lemma bmp_get_pixel_cell (im : BMPImage) (buf : list Pixel) (x y : Z) :
  well_formed im buf → 0 <= x < width im → 0 <= y < height im →
  ∃ p : Pixel,
    buf !! Z.to_nat (y * width im + x) = Some p
    ∧ bmp_get_pixel (Some im) x y = Ret p.
Proof.
  intros (Hdata & HW & HH & Hlen & Hmax) Hx Hy.
  assert (0 <= y * width im) by nia.
  assert (y * width im + x < width im * height im) by nia.
  assert (is_Some (buf !! Z.to_nat (y * width im + x))) as [p Hp]
    by (apply lookup_lt_is_Some; lia).
  exists p. split; [done|].
  apply (bmp_get_pixel_inside im buf); [done..|lia|done].
Qed.

(** X4: after [bmp_rotate_right] of a well-formed image, [bmp_get_pixel]
    at column [x], row [y] of the new image returns what it returned at
    column [y], row [height - 1 - x] of the old one (a quarter turn
    clockwise). *)
Theorem bmp_rotate_right_get_pixel (im : BMPImage) (buf : list Pixel) (w : world) :
  well_formed im buf →
  sizeof_Pixel * (width im * height im) <= heap_avail w →
  ∃ im' : BMPImage,
    bmp_rotate_right (Some im) w = Ret (Some im', w)
    ∧ width im' = height im ∧ height im' = width im
    ∧ ∀ x y, 0 <= x < height im → 0 <= y < width im →
        bmp_get_pixel (Some im') x y = bmp_get_pixel (Some im) y (height im - 1 - x).
Proof.
  intros Hwf Havail.
  destruct (bmp_rotate_right_spec im buf Hwf w Havail) as (nd & Hrun & Hlen & Hcells).
  pose proof (well_formed_rotated im buf nd Hwf Hlen) as Hwf'.
  eexists. split; [exact Hrun|]. split; [done|]. split; [done|].
  intros x y Hx Hy.
  destruct (bmp_get_pixel_cell _ nd x y Hwf') as (p & Hp & ->); [done..|].
  destruct (bmp_get_pixel_cell im buf y (height im - 1 - x) Hwf) as (q & Hq & ->);
    [lia..|].
  cbn [width height] in Hp. rewrite Hcells in Hp by lia. congruence.
Qed.

Lemma bmp_rotate_right_get_pixel_witness :
  ∃ im' : BMPImage,
    bmp_rotate_right (Some Sample.img31) Sample.w0 = Ret (Some im', Sample.w0)
    ∧ width im' = 1 ∧ height im' = 3
    ∧ ∀ x y, 0 <= x < 1 → 0 <= y < 3 →
        bmp_get_pixel (Some im') x y = bmp_get_pixel (Some Sample.img31) y (1 - 1 - x).
Proof.
  apply (bmp_rotate_right_get_pixel Sample.img31 [Sample.p0; Sample.p1; Sample.p2]).
  - repeat split; vm_compute; congruence.
  - vm_compute; congruence.
Defined.

(** X5: after [bmp_flip_horizontal] of a well-formed image,
    [bmp_get_pixel] at column [x], row [y] returns what it returned at
    column [width - 1 - x] of the same row before. *)
Theorem bmp_flip_horizontal_get_pixel (im : BMPImage) (buf : list Pixel) (w : world) :
  well_formed im buf →
  sizeof_Pixel * (width im * height im) <= heap_avail w →
  ∃ im' : BMPImage,
    bmp_flip_horizontal (Some im) w = Ret (Some im', w)
    ∧ width im' = width im ∧ height im' = height im
    ∧ ∀ x y, 0 <= x < width im → 0 <= y < height im →
        bmp_get_pixel (Some im') x y = bmp_get_pixel (Some im) (width im - 1 - x) y.
Proof.
  intros Hwf Havail.
  destruct (bmp_flip_horizontal_spec im buf Hwf w Havail) as (nd & Hrun & Hlen & Hcells).
  pose proof (well_formed_same_size im buf nd Hwf Hlen) as Hwf'.
  eexists. split; [exact Hrun|]. split; [done|]. split; [done|].
  intros x y Hx Hy.
  destruct (bmp_get_pixel_cell _ nd x y Hwf') as (p & Hp & ->); [done..|].
  destruct (bmp_get_pixel_cell im buf (width im - 1 - x) y Hwf) as (q & Hq & ->);
    [lia..|].
  cbn [width height] in Hp. rewrite Hcells in Hp by lia. congruence.
Qed.

Lemma bmp_flip_horizontal_get_pixel_witness :
  ∃ im' : BMPImage,
    bmp_flip_horizontal (Some Sample.img22) Sample.w0 = Ret (Some im', Sample.w0)
    ∧ width im' = 2 ∧ height im' = 2
    ∧ ∀ x y, 0 <= x < 2 → 0 <= y < 2 →
        bmp_get_pixel (Some im') x y = bmp_get_pixel (Some Sample.img22) (2 - 1 - x) y.
Proof.
  apply (bmp_flip_horizontal_get_pixel Sample.img22
           [Sample.p0; Sample.p1; Sample.p2; Sample.p3]).
  - repeat split; vm_compute; congruence.
  - vm_compute; congruence.
Defined.

(** X6: [bmp_set_pixel] at one place of a well-formed image does not
    change what [bmp_get_pixel] returns at any other coordinate pair, in
    range or not. *)
Theorem bmp_set_pixel_get_other (im : BMPImage) (buf : list Pixel)
    (x y x' y' : Z) (color : Pixel) :
  well_formed im buf → (x', y') ≠ (x, y) →
  ∃ image' : option BMPImage,
    bmp_set_pixel (Some im) x y color = Ret image'
    ∧ bmp_get_pixel image' x' y' = bmp_get_pixel (Some im) x' y'.
Proof.
  intros Hwf Hne. pose proof Hwf as (Hdata & HW & HH & Hlen & Hmax).
  destruct (out_of_range im x y) eqn:Hxy.
  - exists (Some im). split; [|done].
    unfold bmp_set_pixel. now rewrite Hdata, Hxy.
  - assert (0 <= x < width im ∧ 0 <= y < height im) as [Hx Hy].
    { unfold out_of_range in Hxy.
      destruct (Z.ltb_spec x 0), (Z.geb_spec x (width im)),
        (Z.ltb_spec y 0), (Z.geb_spec y (height im)); try discriminate; lia. }
    assert (0 <= y * width im) by nia.
    assert (y * width im + x < width im * height im) by nia.
    eexists. split.
    { apply (bmp_set_pixel_inside im buf); [done..|lia|lia]. }
    destruct (out_of_range im x' y') eqn:Hxy'.
    + unfold bmp_get_pixel. cbn [data]. rewrite Hdata.
      unfold out_of_range in *. cbn [width height]. now rewrite Hxy'.
    + assert (0 <= x' < width im ∧ 0 <= y' < height im) as [Hx' Hy'].
      { unfold out_of_range in Hxy'.
        destruct (Z.ltb_spec x' 0), (Z.geb_spec x' (width im)),
          (Z.ltb_spec y' 0), (Z.geb_spec y' (height im)); try discriminate; lia. }
      destruct (bmp_get_pixel_cell im buf x' y' Hwf) as (p & Hp & ->); [done..|].
      assert (0 <= y' * width im) by nia.
      assert (y' * width im + x' < width im * height im) by nia.
      apply (bmp_get_pixel_inside _ (<[Z.to_nat (y * width im + x) := color]> buf));
        cbn [data width height]; [done..|lia|].
      rewrite list_lookup_insert_ne; [done|].
      intros Heq. apply Hne.
      destruct (cell_index_inj (width im) y x y' x'); [lia..|]. congruence.
Qed.

Lemma bmp_set_pixel_get_other_witness :
  ∃ image' : option BMPImage,
    bmp_set_pixel (Some Sample.img22) 0 0 Sample.p3 = Ret image'
    ∧ bmp_get_pixel image' 1 0 = bmp_get_pixel (Some Sample.img22) 1 0.
Proof.
  apply (bmp_set_pixel_get_other Sample.img22
           [Sample.p0; Sample.p1; Sample.p2; Sample.p3]).
  - repeat split; vm_compute; congruence.
  - congruence.
Defined.

(** ** The invariant of the data model *)

(** X7: every operation that changes an image keeps the invariant of the
    data model.  From a well-formed image, in any world, [bmp_rotate_right],
    [bmp_flip_horizontal], [bmp_grayscale], [bmp_invert] and
    [bmp_set_pixel] (at any coordinates) all return normally with a
    well-formed image: positive dimensions and a buffer of exactly
    [width * height] pixels. *)
Theorem operations_keep_well_formed (im : BMPImage) (buf : list Pixel) (w : world) :
  well_formed im buf →
  (∃ im' buf' w', bmp_rotate_right (Some im) w = Ret (Some im', w')
                  ∧ well_formed im' buf')
  ∧ (∃ im' buf' w', bmp_flip_horizontal (Some im) w = Ret (Some im', w')
                    ∧ well_formed im' buf')
  ∧ (∃ im' buf', bmp_grayscale (Some im) = Ret (Some im') ∧ well_formed im' buf')
  ∧ (∃ im' buf', bmp_invert (Some im) = Ret (Some im') ∧ well_formed im' buf')
  ∧ (∀ x y color, ∃ im' buf',
       bmp_set_pixel (Some im) x y color = Ret (Some im') ∧ well_formed im' buf').
Proof.
  intros Hwf. pose proof Hwf as (Hdata & HW & HH & Hlen & Hmax).
  destruct (Z_le_gt_dec (sizeof_Pixel * (width im * height im)) (heap_avail w))
    as [Hroom|Hfull].
  - split; [|split; [|split; [|split]]].
    + destruct (bmp_rotate_right_spec im buf Hwf w Hroom) as (nd & Hrun & Hnd & _).
      do 3 eexists. split; [exact Hrun|]. now apply (well_formed_rotated im buf).
    + destruct (bmp_flip_horizontal_spec im buf Hwf w Hroom) as (nd & Hrun & Hnd & _).
      do 3 eexists. split; [exact Hrun|]. now apply (well_formed_same_size im buf).
    + do 2 eexists. split; [apply (bmp_grayscale_well_formed im buf Hwf)|].
      apply (well_formed_same_size im buf); [done|apply length_map].
    + do 2 eexists. split; [apply (bmp_invert_well_formed im buf Hwf)|].
      apply (well_formed_same_size im buf); [done|apply length_map].
    + intros x y color. destruct (out_of_range im x y) eqn:Hxy.
      * exists im, buf. split; [|done]. unfold bmp_set_pixel. now rewrite Hdata, Hxy.
      * assert (0 <= x < width im ∧ 0 <= y < height im) as [Hx Hy].
        { unfold out_of_range in Hxy.
          destruct (Z.ltb_spec x 0), (Z.geb_spec x (width im)),
            (Z.ltb_spec y 0), (Z.geb_spec y (height im)); try discriminate; lia. }
        assert (0 <= y * width im) by nia.
        assert (y * width im + x < width im * height im) by nia.
        do 2 eexists. split.
        { apply (bmp_set_pixel_inside im buf); [done..|lia|lia]. }
        apply (well_formed_same_size im buf); [done|apply length_insert].
  - destruct (allocation_failure_unchanged im buf w Hwf ltac:(lia)) as [Hrot Hflip].
    split; [|split; [|split; [|split]]].
    + exists im, buf, w. split; assumption.
    + exists im, buf, w. split; assumption.
    + do 2 eexists. split; [apply (bmp_grayscale_well_formed im buf Hwf)|].
      apply (well_formed_same_size im buf); [done|apply length_map].
    + do 2 eexists. split; [apply (bmp_invert_well_formed im buf Hwf)|].
      apply (well_formed_same_size im buf); [done|apply length_map].
    + intros x y color. destruct (out_of_range im x y) eqn:Hxy.
      * exists im, buf. split; [|done]. unfold bmp_set_pixel. now rewrite Hdata, Hxy.
      * assert (0 <= x < width im ∧ 0 <= y < height im) as [Hx Hy].
        { unfold out_of_range in Hxy.
          destruct (Z.ltb_spec x 0), (Z.geb_spec x (width im)),
            (Z.ltb_spec y 0), (Z.geb_spec y (height im)); try discriminate; lia. }
        assert (0 <= y * width im) by nia.
        assert (y * width im + x < width im * height im) by nia.
        do 2 eexists. split.
        { apply (bmp_set_pixel_inside im buf); [done..|lia|lia]. }
        apply (well_formed_same_size im buf); [done|apply length_insert].
Qed.

Lemma operations_keep_well_formed_witness :
  (∃ im' buf' w', bmp_rotate_right (Some Sample.img31) Sample.w0 = Ret (Some im', w')
                  ∧ well_formed im' buf')
  ∧ (∃ im' buf' w', bmp_flip_horizontal (Some Sample.img31) Sample.w0 = Ret (Some im', w')
                    ∧ well_formed im' buf')
  ∧ (∃ im' buf', bmp_grayscale (Some Sample.img31) = Ret (Some im')
                 ∧ well_formed im' buf')
  ∧ (∃ im' buf', bmp_invert (Some Sample.img31) = Ret (Some im') ∧ well_formed im' buf')
  ∧ (∀ x y color, ∃ im' buf',
       bmp_set_pixel (Some Sample.img31) x y color = Ret (Some im')
       ∧ well_formed im' buf').
Proof.
  apply (operations_keep_well_formed Sample.img31 [Sample.p0; Sample.p1; Sample.p2]).
  repeat split; vm_compute; congruence.
Defined.

(** ** What [bmp_save] writes *)

Lemma saved_file_headers (im : BMPImage) (buf : list Pixel) :
  well_formed im buf →
  let isz := to_u32 ((width im * 3 + row_padding (width im)) * height im) in
  file_header_of_bytes (take 14 (saved_file im buf)) =
    mkFileHeader 0x4D42 (to_u32 (54 + isz)) 0 0 54
  ∧ info_header_of_bytes (take 40 (drop 14 (saved_file im buf))) =
    mkInfoHeader 40 (width im) (height im) 1 24 0 isz 2835 2835 0 0.
Proof.
  intros (Hdata & HW & HH & Hlen & Hmax) isz.
  assert (width im <= INT_MAX ∧ height im <= INT_MAX) as [HWmax HHmax] by nia.
  unfold saved_file, saved_headers. cbv zeta. fold isz.
  rewrite <- !app_assoc. split.
  - rewrite file_header_wire. cbn [fh_type fh_size fh_reserved1 fh_reserved2 fh_offset].
    f_equal. unfold to_u32. now rewrite Z.mod_mod by lia.
  - rewrite drop_app_length' by reflexivity.
    rewrite info_header_wire. cbn [ih_size ih_width ih_height ih_planes ih_bit_count
      ih_compression ih_size_image ih_x_pixels_per_meter ih_y_pixels_per_meter
      ih_colors_used ih_colors_important].
    rewrite !to_int_to_u32 by (unfold INT_MIN, INT_MAX in *; lia).
    f_equal. subst isz. unfold to_u32. now rewrite Z.mod_mod by lia.
Qed.

(** X8: on a well-formed image and a path that opens, [bmp_save] returns
    [BMP_SUCCESS] and changes nothing but the file at that path (heap,
    other files and open streams are as before).  The file is
    [54 + height * (3 * width + padding)] bytes long and its headers are
    consistent with it: signature 0x4D42, data offset 54, header size 40,
    the image's width and height, 1 plane, 24 bits, no compression and,
    while the length fits 32 bits, a file-size field equal to the length
    and an image-size field equal to the length of the pixel rows. *)
Theorem bmp_save_file_consistent (im : BMPImage) (buf : list Pixel) (name : string)
    (w : world) :
  well_formed im buf → name ∉ locked w →
  ∃ c : list byte,
    bmp_save (Some im) name w =
      Ret (BMP_SUCCESS, set_files (<[name := c]> (files w)) w)
    ∧ Z.of_nat (length c) =
        54 + height im * (3 * width im + (4 - (width im * 3) mod 4) mod 4)
    ∧ let fh := file_header_of_bytes (take 14 c) in
      let ih := info_header_of_bytes (take 40 (drop 14 c)) in
      fh_type fh = 0x4D42 ∧ fh_offset fh = 54
      ∧ ih_size ih = 40 ∧ ih_width ih = width im ∧ ih_height ih = height im
      ∧ ih_planes ih = 1 ∧ ih_bit_count ih = 24 ∧ ih_compression ih = 0
      ∧ (Z.of_nat (length c) < 2 ^ 32 →
         fh_size fh = Z.of_nat (length c)
         ∧ ih_size_image ih = Z.of_nat (length c) - 54).
Proof.
  intros Hwf Hfree. pose proof Hwf as (Hdata & HW & HH & Hlen & Hmax).
  exists (saved_file im buf).
  split; [now apply bmp_save_spec|].
  pose proof (saved_file_length im buf Hwf) as Hsize. unfold row_padding in Hsize.
  split; [exact Hsize|].
  destruct (saved_file_headers im buf Hwf) as [-> ->].
  cbn [fh_type fh_size fh_offset ih_size ih_width ih_height ih_planes ih_bit_count
       ih_compression ih_size_image].
  repeat (split; [reflexivity|]).
  intros Hfits. rewrite Hsize in *.
  pose proof (row_padding_range (width im)) as Hpad. unfold row_padding in *.
  set (p := (4 - (width im * 3) mod 4) mod 4) in *.
  assert (0 <= (width im * 3 + p) * height im < 2 ^ 32) by nia.
  unfold to_u32. rewrite (Z.mod_small ((width im * 3 + p) * height im)) by lia.
  rewrite Z.mod_small by lia. lia.
Qed.

Lemma bmp_save_file_consistent_witness :
  ∃ c : list byte,
    bmp_save (Some Sample.img31) "image.bmp" Sample.w0 =
      Ret (BMP_SUCCESS, set_files (<["image.bmp" := c]> (files Sample.w0)) Sample.w0)
    ∧ Z.of_nat (length c) = 54 + 1 * (3 * 3 + (4 - (3 * 3) mod 4) mod 4)
    ∧ let fh := file_header_of_bytes (take 14 c) in
      let ih := info_header_of_bytes (take 40 (drop 14 c)) in
      fh_type fh = 0x4D42 ∧ fh_offset fh = 54
      ∧ ih_size ih = 40 ∧ ih_width ih = 3 ∧ ih_height ih = 1
      ∧ ih_planes ih = 1 ∧ ih_bit_count ih = 24 ∧ ih_compression ih = 0
      ∧ (Z.of_nat (length c) < 2 ^ 32 →
         fh_size fh = Z.of_nat (length c)
         ∧ ih_size_image ih = Z.of_nat (length c) - 54).
Proof.
  apply (bmp_save_file_consistent Sample.img31 [Sample.p0; Sample.p1; Sample.p2]
           "image.bmp" Sample.w0).
  - repeat split; vm_compute; congruence.
  - apply not_elem_of_empty.
Defined.

(** ** What [bmp_save] does not check *)

Section SaveShort.

Context (im : BMPImage) (buf : list Pixel) (name : string).
Context (Hdata : data im = Some buf).

Let W : Z := width im.
Let H : Z := height im.

Context (HW : 0 < W) (HH : 0 < H) (Hmax : W * H <= INT_MAX).
Context (Hshort : Z.of_nat (length buf) < W * H).

(** The row loop runs off the end of a buffer that is too short. *)
Lemma save_rows_short (n : nat) (i : Z) (f : gmap string (list byte))
    (l : gset string) (a : Z) (j : nat → byte) (o : nat) (content : list byte) :
  0 <= i → i + Z.of_nat n <= H → i * W <= Z.of_nat (length buf) →
  Z.of_nat (length buf) < (i + Z.of_nat n) * W → f !! name = Some content →
  save_rows n i im (calculate_padding W)
      (Some (mkFILE name (Z.of_nat (length content)))) (mkWorld f l a j o) =
    Undef OutOfBounds.
Proof.
  revert i f content. induction n as [|n IH]; intros i f content Hi Hin Hlo Hhi Hf.
  - lia.
  - cbn [save_rows]. fold W.
    pose proof Hmax as Hmax'. unfold INT_MAX in Hmax'.
    assert (W <= 2 ^ 31 - 1) by nia.
    assert (0 <= i * W) by nia.
    rewrite (to_int_id (i * W)) by (unfold INT_MIN, INT_MAX; lia).
    rewrite (to_size_id W) by lia.
    unfold pixel_bytes_at. rewrite Hdata.
    destruct (Z.eqb_spec W 0); [lia|].
    destruct (Z.ltb_spec (i * W) 0); [lia|].
    destruct (Z.ltb_spec (Z.of_nat (length buf)) (i * W + W)) as [Hout|Hin'].
    + reflexivity.
    + cbn [orb]. rewrite calculate_padding_row_padding.
      rewrite padding_bytes_take by apply row_padding_range.
      unfold mbind, io_bind, lift.
      rewrite (fwrite_append f l a j o name content) by done.
      set (row := bytes_of_pixels _).
      rewrite (fwrite_append _ l a j o name (content ++ row))
        by apply lookup_insert_eq.
      specialize (IH (i + 1)
        (<[name := (content ++ row) ++ replicate (Z.to_nat (row_padding W)) Byte.x00]>
           (<[name := content ++ row]> f))
        ((content ++ row) ++ replicate (Z.to_nat (row_padding W)) Byte.x00)).
      rewrite calculate_padding_row_padding in IH.
      apply IH; [lia | lia | lia | lia | apply lookup_insert_eq].
Qed.

Lemma bmp_save_short (w : world) :
  name ∉ locked w → bmp_save (Some im) name w = Undef OutOfBounds.
Proof.
  destruct w as [f l a j o]. cbn [locked files]. intros Hfree.
  unfold bmp_save. unfold mbind at 1, io_bind. unfold fopen_write.
  cbn [locked files open_streams set_files set_open_streams heap_avail junk].
  destruct (decide (name ∈ l)) as [|_]; [done|].
  cbv zeta. fold W H.
  set (fhb := file_header_bytes _). set (ihb := info_header_bytes _).
  unfold set_open_streams, set_files.
  cbn [locked files open_streams heap_avail junk].
  change (mkFILE name 0) with (mkFILE name (Z.of_nat (length (@nil byte)))).
  unfold mbind at 1, io_bind.
  rewrite (fwrite_append _ l a j (S o) name [] fhb) by apply lookup_insert_eq.
  unfold mbind at 1, io_bind.
  rewrite (fwrite_append _ l a j (S o) name ([] ++ fhb) ihb) by apply lookup_insert_eq.
  unfold mbind at 1, io_bind.
  now rewrite (save_rows_short (Z.to_nat H) 0 _ l a j (S o) (([] ++ fhb) ++ ihb));
    [|lia|lia|lia|lia|apply lookup_insert_eq].
Qed.

End SaveShort.

(** X9: [bmp_save] checks the result of [fopen] and nothing else.  On a
    path that cannot be opened it returns [BMP_ERR_FILE_NOT_FOUND] and
    leaves the world untouched, whatever the image pointer (NULL
    included).  On a path that opens, a NULL image is dereferenced, and a
    buffer with fewer than [width * height] pixels is read past its end:
    both are undefined behaviour. *)
Theorem bmp_save_unchecked :
  (∀ (image : option BMPImage) (name : string) (w : world),
     name ∈ locked w → bmp_save image name w = Ret (BMP_ERR_FILE_NOT_FOUND, w))
  ∧ (∀ (name : string) (w : world),
       name ∉ locked w → bmp_save None name w = Undef NullPointer)
  ∧ (∀ (im : BMPImage) (buf : list Pixel) (name : string) (w : world),
       name ∉ locked w → data im = Some buf →
       0 < width im → 0 < height im → width im * height im <= INT_MAX →
       Z.of_nat (length buf) < width im * height im →
       bmp_save (Some im) name w = Undef OutOfBounds).
Proof.
  split; [|split].
  - intros image name w Hlocked. unfold bmp_save, mbind, io_bind, fopen_write.
    now destruct (decide (name ∈ locked w)).
  - intros name w Hfree. unfold bmp_save, mbind, io_bind, fopen_write.
    now destruct (decide (name ∈ locked w)).
  - intros im buf name w Hfree Hdata HW HH Hmax Hshort.
    now apply (bmp_save_short im buf).
Qed.

Lemma bmp_save_unchecked_witness :
  bmp_save None "image.bmp" Sample.w_locked = Ret (BMP_ERR_FILE_NOT_FOUND, Sample.w_locked)
  ∧ bmp_save None "image.bmp" Sample.w0 = Undef NullPointer
  ∧ bmp_save (Some (mkImage 2 2 (Some [Sample.p0; Sample.p1; Sample.p2])))
             "image.bmp" Sample.w0 = Undef OutOfBounds.
Proof.
  pose proof bmp_save_unchecked as (Hlocked & Hnull & Hshort).
  split; [|split].
  - apply Hlocked. cbn [locked Sample.w_locked]. apply elem_of_singleton. reflexivity.
  - apply Hnull. apply not_elem_of_empty.
  - apply (Hshort _ [Sample.p0; Sample.p1; Sample.p2]).
    + apply not_elem_of_empty.
    + reflexivity.
    + simpl; lia.
    + simpl; lia.
    + vm_compute; congruence.
    + vm_compute; reflexivity.
Defined.

(** ** Allocation in [bmp_load] *)

(** Runs [bmp_load] on a file that holds both headers up to the format
    check: opens the stream, reads the headers, names the world [w1]. *)
Ltac load_headers w name c Hf Hc :=
  unfold bmp_load;
  unfold mbind at 1, io_bind; rewrite (fopen_read_existing w name c Hf);
  set (w1 := set_open_streams _ w);
  assert (Hf1 : files w1 !! name = Some c) by (now destruct w);
  assert (Havail1 : heap_avail w1 = heap_avail w) by (now destruct w);
  unfold mbind at 1, io_bind; unfold alloca at 1;
  unfold mbind at 1, io_bind; unfold alloca at 1;
  change (Z.to_nat sizeof_BMPFileHeader) with 14%nat;
  change (Z.to_nat sizeof_BMPInfoHeader) with 40%nat;
  change sizeof_BMPFileHeader with (Z.of_nat 14);
  change sizeof_BMPInfoHeader with (Z.of_nat 40);
  unfold mbind at 1, io_bind;
  rewrite (fread_header w1 name c 0 14) by (done || lia);
  unfold mbind at 1, io_bind;
  rewrite (fread_header w1 name c (0 + 14) 40) by (done || lia);
  rewrite drop_0; cbn [Nat.add].

(** X10: when the headers of a file pass the format check and [malloc]
    provides the image struct but not the pixel buffer, [bmp_load] returns
    NULL with [BMP_ERR_MALLOC_FAILED], having freed the struct and closed
    the stream: the world is as before.  The size requested is
    [height * width] computed in [int], then times 3 in [size_t]; width
    and height are not validated, so a negative width asks for nearly
    [2 ^ 64] bytes and ends here too. *)
Theorem bmp_load_malloc_failed (w : world) (name : string) (c : list byte)
    (err_out : option BMPError) :
  files w !! name = Some c → (54 <= length c)%nat →
  let fh := file_header_of_bytes (take 14 c) in
  let ih := info_header_of_bytes (take 40 (drop 14 c)) in
  let W := ih_width ih in
  let H := to_int (Z.abs (ih_height ih)) in
  fh_type fh = 0x4D42 → ih_bit_count ih = 24 →
  sizeof_BMPImage <= heap_avail w →
  heap_avail w - sizeof_BMPImage < to_size (to_size (to_int (H * W)) * sizeof_Pixel) →
  bmp_load name err_out w = Ret ((None, set_err err_out BMP_ERR_MALLOC_FAILED), w).
Proof.
  intros Hf Hc fh ih W H Htype Hbits Hstruct Hbuf.
  load_headers w name c Hf Hc. fold fh ih.
  rewrite Htype, Hbits. cbn [Z.eqb Pos.eqb negb orb].
  unfold mbind at 1, io_bind. unfold malloc at 1. rewrite Havail1.
  destruct (Z.leb_spec sizeof_BMPImage (heap_avail w)); [|lia].
  cbn [negb]. fold W H.
  unfold mbind at 1, io_bind. unfold malloc_pixels, malloc.
  cbn [heap_avail set_heap_avail].
  destruct (Z.leb_spec (to_size (to_size (to_int (H * W)) * sizeof_Pixel))
              (heap_avail w - sizeof_BMPImage)); [lia|].
  unfold mbind, io_bind, free, fclose, mret, io_ret. subst w1.
  destruct w. unfold set_heap_avail, set_open_streams.
  cbn [files locked heap_avail junk open_streams Nat.pred].
  do 2 f_equal. f_equal. lia.
Qed.

Lemma bmp_load_malloc_failed_witness :
  bmp_load "image.bmp" (Some BMP_SUCCESS) Sample.w_tight =
    Ret ((None, Some BMP_ERR_MALLOC_FAILED), Sample.w_tight).
Proof.
  apply (bmp_load_malloc_failed Sample.w_tight "image.bmp"
           (saved_file Sample.img31 [Sample.p0; Sample.p1; Sample.p2])).
  - apply lookup_singleton_eq.
  - vm_compute. lia.
  - vm_compute; reflexivity.
  - vm_compute; reflexivity.
  - vm_compute; congruence.
  - vm_compute; reflexivity.
Defined.

(** X11: the result of the first [malloc] of [bmp_load] (the image
    struct) is not checked.  When the headers pass the format check and
    that allocation fails, the code writes through the null pointer:
    undefined behaviour, not [BMP_ERR_MALLOC_FAILED]. *)
Theorem bmp_load_struct_malloc_unchecked (w : world) (name : string) (c : list byte)
    (err_out : option BMPError) :
  files w !! name = Some c → (54 <= length c)%nat →
  fh_type (file_header_of_bytes (take 14 c)) = 0x4D42 →
  ih_bit_count (info_header_of_bytes (take 40 (drop 14 c))) = 24 →
  heap_avail w < sizeof_BMPImage →
  bmp_load name err_out w = Undef NullPointer.
Proof.
  intros Hf Hc Htype Hbits Hstruct.
  load_headers w name c Hf Hc.
  rewrite Htype, Hbits. cbn [Z.eqb Pos.eqb negb orb].
  unfold mbind at 1, io_bind. unfold malloc at 1. rewrite Havail1.
  destruct (Z.leb_spec sizeof_BMPImage (heap_avail w)); [lia|].
  reflexivity.
Qed.

Lemma bmp_load_struct_malloc_unchecked_witness :
  bmp_load "image.bmp" (Some BMP_SUCCESS) Sample.w_exhausted = Undef NullPointer.
Proof.
  apply (bmp_load_struct_malloc_unchecked Sample.w_exhausted "image.bmp"
           (saved_file Sample.img31 [Sample.p0; Sample.p1; Sample.p2])).
  - apply lookup_singleton_eq.
  - vm_compute. lia.
  - vm_compute; reflexivity.
  - vm_compute; reflexivity.
  - vm_compute; reflexivity.
Defined.

(** ** Releasing a loaded image *)

Lemma stored_rows_length (wn stride n pos : nat) (c : list byte) :
  (3 * wn <= stride)%nat → (pos + n * stride <= length c)%nat →
  length (stored_rows wn stride c pos n) = (n * wn)%nat.
Proof.
  intros Hstride. revert pos. induction n as [|n IH]; intros pos Hc; [done|].
  cbn [stored_rows]. rewrite length_app.
  rewrite (pixels_of_bytes_length wn)
    by (rewrite length_take, length_drop; lia).
  rewrite IH by lia. lia.
Qed.

Lemma bmp_free_buffer (im : BMPImage) (buf : list Pixel) (w : world) :
  data im = Some buf →
  bmp_free (Some im) w =
    Ret (tt, set_heap_avail
               (heap_avail w + sizeof_Pixel * Z.of_nat (length buf) + sizeof_BMPImage) w).
Proof.
  intros Hdata. unfold bmp_free. rewrite Hdata.
  unfold mbind, io_bind, free_pixels, free. now destruct w.
Qed.

(** X12: [bmp_free] gives back exactly what [bmp_load] took.  For a file
    that [bmp_load] loads (headers that pass the check, positive
    dimensions, all rows present, room in the heap), loading and then
    freeing the returned image leaves the world as it was: the struct and
    the pixel buffer are released and no stream stays open. *)
Theorem bmp_load_free_restores (w : world) (name : string) (c : list byte)
    (err_out : option BMPError) :
  files w !! name = Some c → (54 <= length c)%nat →
  let fh := file_header_of_bytes (take 14 c) in
  let ih := info_header_of_bytes (take 40 (drop 14 c)) in
  let W := ih_width ih in
  let H := to_int (Z.abs (ih_height ih)) in
  fh_type fh = 0x4D42 → ih_bit_count ih = 24 →
  0 < W → 0 < H → W * H <= INT_MAX →
  sizeof_BMPImage + sizeof_Pixel * (W * H) <= heap_avail w →
  fh_offset fh + H * (3 * W + row_padding W) <= Z.of_nat (length c) →
  ('(img, _) ← bmp_load name err_out; bmp_free img) w = Ret (tt, w).
Proof.
  intros Hf Hc fh ih W H Htype Hbits HW HH Hmax Havail Hrows.
  pose proof (row_padding_range W) as Hpad.
  assert (Hoff : 0 <= fh_offset fh) by apply field_nonneg.
  unfold mbind at 1, io_bind.
  rewrite (bmp_load_spec w name c err_out Hf Hc); [|done..]. fold fh ih W H.
  cbv beta iota.
  erewrite bmp_free_buffer by reflexivity.
  rewrite stored_rows_length by nia.
  cbn [heap_avail set_heap_avail]. f_equal. f_equal.
  destruct w. unfold set_heap_avail.
  cbn [files locked heap_avail junk open_streams]. f_equal.
  unfold sizeof_Pixel, sizeof_BMPImage. nia.
Qed.

Lemma bmp_load_free_restores_witness :
  ('(img, _) ← bmp_load "image.bmp" None; bmp_free img) Sample.w_saved =
    Ret (tt, Sample.w_saved).
Proof.
  apply (bmp_load_free_restores Sample.w_saved "image.bmp"
           (saved_file Sample.img31 [Sample.p0; Sample.p1; Sample.p2]) None).
  - apply lookup_singleton_eq.
  - vm_compute. lia.
  - vm_compute; reflexivity.
  - vm_compute; reflexivity.
  - vm_compute; reflexivity.
  - vm_compute; reflexivity.
  - vm_compute; congruence.
  - vm_compute; congruence.
  - vm_compute; congruence.
Defined.

(** ** Files without their pixel rows *)

Lemma pixels_of_bytes_id (l : list Pixel) : pixels_of_bytes (bytes_of_pixels l) = l.
Proof.
  rewrite <- (app_nil_r (bytes_of_pixels l)), pixels_of_bytes_pixels.
  apply app_nil_r.
Qed.

(** The row loop at the end of the file: nothing is read, nothing is
    stored, and the loop goes on all the same. *)
Lemma load_rows_eof (w : world) (name : string) (c : list byte) (n : nat) (i : Z)
    (img : BMPImage) (pad pos : Z) (buf : list Pixel) :
  files w !! name = Some c → Z.of_nat (length c) <= pos → 0 <= pad →
  0 < width img → 0 <= i →
  (i + Z.of_nat n) * width img <= Z.of_nat (length buf) →
  Z.of_nat (length buf) <= INT_MAX →
  load_rows n i img pad buf (Some (mkFILE name pos)) w =
    Ret ((buf, Some (mkFILE name (pos + Z.of_nat n * pad))), w).
Proof.
  intros Hf. revert i pos. induction n as [|n IH]; intros i pos Hpos Hpad HW Hi Hrows Hmax.
  - cbn [load_rows]. unfold mret, io_ret.
    now replace (pos + Z.of_nat 0 * pad) with pos by lia.
  - cbn [load_rows]. unfold INT_MAX in Hmax.
    assert (0 <= i * width img) by nia.
    assert (i * width img <= Z.of_nat (length buf)) by nia.
    rewrite to_int_id by (unfold INT_MIN, INT_MAX; lia).
    unfold fread_pixels.
    destruct (Z.leb_spec 0 (i * width img)); [|lia].
    destruct (Z.leb_spec (i * width img) (Z.of_nat (length buf))); [|lia].
    cbn [andb]. unfold mbind at 1, io_bind. unfold mbind at 1, io_bind.
    unfold fread. cbn [fpath fpos]. rewrite Hf. cbn [default from_option id].
    rewrite (drop_ge c) by lia. rewrite take_nil. cbn [length app drop].
    destruct (Nat.ltb_spec (length (bytes_of_pixels (drop (Z.to_nat (i * width img)) buf))) 0);
      [lia|].
    unfold mret at 1, io_ret.
    rewrite drop_0, pixels_of_bytes_id, take_drop.
    unfold mbind at 1, io_bind. unfold fseek. cbn [fpath fpos].
    change (Z.of_nat 0) with 0. rewrite Z.add_0_r.
    destruct (Z.ltb_spec (pos + pad) 0); [lia|].
    rewrite IH by (done || (unfold INT_MAX; lia) || nia).
    now replace (pos + pad + Z.of_nat n * pad) with (pos + Z.of_nat (S n) * pad) by lia.
Qed.

Lemma uninit_bytes_heap (n : nat) (a : Z) (w : world) :
  uninit_bytes n (set_heap_avail a w) = uninit_bytes n w.
Proof. reflexivity. Qed.

Lemma uninit_bytes_streams (n o : nat) (w : world) :
  uninit_bytes n (set_open_streams o w) = uninit_bytes n w.
Proof. reflexivity. Qed.

(** X13: [bmp_load] does not look at what [fread] returns.  For a file
    whose headers pass the check but which ends before its pixel data
    (at or before the declared offset), it still returns an image and
    [BMP_SUCCESS]; the pixels of that image are the uninitialised content
    of the block [malloc] handed out. *)
Theorem bmp_load_truncated (w : world) (name : string) (c : list byte)
    (err_out : option BMPError) :
  files w !! name = Some c → (54 <= length c)%nat →
  let fh := file_header_of_bytes (take 14 c) in
  let ih := info_header_of_bytes (take 40 (drop 14 c)) in
  let W := ih_width ih in
  let H := to_int (Z.abs (ih_height ih)) in
  fh_type fh = 0x4D42 → ih_bit_count ih = 24 →
  0 < W → 0 < H → W * H <= INT_MAX →
  sizeof_BMPImage + sizeof_Pixel * (W * H) <= heap_avail w →
  Z.of_nat (length c) <= fh_offset fh →
  bmp_load name err_out w =
    Ret ((Some (mkImage W H
                  (Some (pixels_of_bytes
                           (uninit_bytes (Z.to_nat (sizeof_Pixel * (W * H))) w)))),
          set_err err_out BMP_SUCCESS),
         set_heap_avail (heap_avail w - sizeof_BMPImage - sizeof_Pixel * (W * H)) w).
Proof.
  intros Hf Hc fh ih W H Htype Hbits HW HH Hmax Havail Hrows.
  load_headers w name c Hf Hc. fold fh ih.
  rewrite Htype, Hbits. cbn [Z.eqb Pos.eqb negb orb].
  unfold mbind at 1, io_bind. unfold malloc at 1. rewrite Havail1.
  assert (0 < W * H) by nia.
  destruct (Z.leb_spec sizeof_BMPImage (heap_avail w));
    [|unfold sizeof_BMPImage, sizeof_Pixel in *; lia].
  cbn [negb]. fold W H.
  pose proof Hmax as Hmax'. unfold INT_MAX in Hmax'.
  rewrite (to_int_id (H * W)) by (unfold INT_MIN, INT_MAX; nia).
  rewrite (to_size_id (H * W)) by nia.
  rewrite to_size_id by (unfold sizeof_Pixel; nia).
  replace (H * W * sizeof_Pixel) with (sizeof_Pixel * (W * H)) by lia.
  set (w2 := set_heap_avail _ w1).
  unfold mbind at 1, io_bind. unfold malloc_pixels, malloc.
  assert (Havail2 : heap_avail w2 = heap_avail w - sizeof_BMPImage)
    by (subst w2 w1; now destruct w).
  rewrite Havail2.
  destruct (Z.leb_spec (sizeof_Pixel * (W * H)) (heap_avail w - sizeof_BMPImage)); [|lia].
  set (nd0 := pixels_of_bytes _).
  assert (Hnd0 : Z.of_nat (length nd0) = W * H).
  { subst nd0. rewrite (pixels_of_bytes_length (Z.to_nat (W * H))); [lia|].
    rewrite uninit_bytes_length. unfold sizeof_Pixel. lia. }
  set (w3 := set_heap_avail _ w2).
  assert (Hf3 : files w3 !! name = Some c) by (now destruct w).
  unfold mbind at 1, io_bind. unfold fseek at 1. cbn [fpath fpos].
  destruct (Z.ltb_spec (fh_offset fh) 0); [lia|].
  cbn [width height]. rewrite calculate_padding_row_padding.
  unfold mbind at 1, io_bind.
  rewrite (load_rows_eof w3 name c);
    [|done|done|apply row_padding_range|cbn [width]; lia|lia|cbn [width]; lia|lia].
  unfold mbind, io_bind, fclose, mret, io_ret.
  subst nd0 w3 w2 w1. rewrite uninit_bytes_heap, uninit_bytes_streams.
  destruct w. reflexivity.
Qed.

Lemma bmp_load_truncated_witness :
  bmp_load "image.bmp" None Sample.w_headers_only =
    Ret ((Some (mkImage 3 1
                  (Some (pixels_of_bytes (uninit_bytes 9 Sample.w_headers_only)))),
          None),
         set_heap_avail (4096 - 16 - 9) Sample.w_headers_only).
Proof.
  apply (bmp_load_truncated Sample.w_headers_only "image.bmp"
           (saved_headers Sample.img31) None).
  - apply lookup_singleton_eq.
  - vm_compute. lia.
  - vm_compute; reflexivity.
  - vm_compute; reflexivity.
  - vm_compute; reflexivity.
  - vm_compute; reflexivity.
  - vm_compute; congruence.
  - vm_compute; congruence.
  - vm_compute; congruence.
Defined.

(** ** The sign of the height field *)

(** X14: [bmp_load] drops the sign of the height field and never reorders
    rows.  A file whose height field is [- height] (a top-down bitmap) and
    whose rows are those of a well-formed image loads as that very image:
    height [height], buffer rows in file order, exactly as the file with
    the positive field does. *)
Theorem bmp_load_top_down (im : BMPImage) (buf : list Pixel) (name : string)
    (err_out : option BMPError) (w : world) :
  well_formed im buf →
  files w !! name = Some (top_down_file im buf) →
  sizeof_BMPImage + sizeof_Pixel * (width im * height im) <= heap_avail w →
  bmp_load name err_out w =
    Ret ((Some im, set_err err_out BMP_SUCCESS),
         set_heap_avail (heap_avail w - sizeof_BMPImage
                         - sizeof_Pixel * (width im * height im)) w).
Proof.
  intros Hwf Hf Havail.
  pose proof Hwf as (Hdata & HW & HH & Hlen & Hmax).
  pose proof (row_padding_range (width im)) as Hpad.
  assert (width im <= INT_MAX ∧ height im <= INT_MAX) as [HWmax HHmax] by nia.
  assert (Hsize : Z.of_nat (length (top_down_file im buf)) =
                  54 + height im * (3 * width im + row_padding (width im))).
  { unfold top_down_file, saved_headers. cbv zeta.
    rewrite !length_app, file_header_bytes_length, info_header_bytes_length.
    rewrite padded_rows_length by nia. nia. }
  assert (Hfh : ∃ fsz, file_header_of_bytes (take 14 (top_down_file im buf)) =
                mkFileHeader 0x4D42 fsz 0 0 54).
  { unfold top_down_file, saved_headers. cbv zeta.
    rewrite <- !app_assoc. rewrite file_header_wire. eexists. reflexivity. }
  assert (Hih : ∃ isz, info_header_of_bytes (take 40 (drop 14 (top_down_file im buf))) =
                mkInfoHeader 40 (width im) (- height im) 1 24 0 isz 2835 2835 0 0).
  { unfold top_down_file, saved_headers. cbv zeta. cbn [width height].
    rewrite <- !app_assoc.
    rewrite drop_app_length' by reflexivity.
    rewrite info_header_wire. cbn [ih_size ih_width ih_height ih_planes ih_bit_count
      ih_compression ih_size_image ih_x_pixels_per_meter ih_y_pixels_per_meter
      ih_colors_used ih_colors_important].
    rewrite !to_int_to_u32 by (unfold INT_MIN, INT_MAX in *; lia).
    eexists. reflexivity. }
  destruct Hfh as [fsz Hfh]. destruct Hih as [isz Hih].
  pose proof (bmp_load_spec w name (top_down_file im buf) err_out Hf) as Hload.
  cbv zeta in Hload. rewrite Hfh, Hih in Hload.
  cbn [fh_type fh_offset ih_width ih_height ih_bit_count] in Hload.
  rewrite (Z.abs_neq (- height im)) in Hload by lia.
  rewrite Z.opp_involutive in Hload.
  rewrite (to_int_id (height im)) in Hload by (unfold INT_MIN, INT_MAX in *; lia).
  rewrite Hload; [|lia|done|done|done|done|done|done|lia].
  assert (Hrows : stored_rows (Z.to_nat (width im))
                    (Z.to_nat (3 * width im + row_padding (width im)))
                    (top_down_file im buf) (Z.to_nat 54) (Z.to_nat (height im)) = buf).
  { unfold top_down_file.
    replace (Z.to_nat (3 * width im + row_padding (width im)))
      with (3 * Z.to_nat (width im) + Z.to_nat (row_padding (width im)))%nat by lia.
    change (Z.to_nat 54)
      with (length (saved_headers (mkImage (width im) (- height im) (data im)))).
    rewrite stored_padded_rows by nia.
    apply take_ge. nia. }
  rewrite Hrows. destruct im as [W H d]. cbn [width height data] in *. now subst d.
Qed.

Lemma bmp_load_top_down_witness :
  bmp_load "image.bmp" None Sample.w_top_down =
    Ret ((Some Sample.img22, None),
         set_heap_avail (4096 - 16 - 3 * (2 * 2)) Sample.w_top_down).
Proof.
  apply (bmp_load_top_down Sample.img22 [Sample.p0; Sample.p1; Sample.p2; Sample.p3]
           "image.bmp" None Sample.w_top_down).
  - repeat split; vm_compute; congruence.
  - apply lookup_singleton_eq.
  - vm_compute; congruence.
Defined.

(** ** Rotation followed by a flip *)

Lemma rotate_flip_spec (im : BMPImage) (buf : list Pixel) (w : world) :
  well_formed im buf →
  sizeof_Pixel * (width im * height im) <= heap_avail w →
  ∃ t : list Pixel,
    (im1 ← bmp_rotate_right (Some im); bmp_flip_horizontal im1) w =
      Ret (Some (mkImage (height im) (width im) (Some t)), w)
    ∧ length t = length buf
    ∧ ∀ r c, 0 <= r < width im → 0 <= c < height im →
        t !! Z.to_nat (r * height im + c) = buf !! Z.to_nat (c * width im + r).
Proof.
  intros Hwf Havail. pose proof Hwf as (Hdata & HW & HH & Hlen & Hmax).
  destruct (bmp_rotate_right_spec im buf Hwf w Havail) as (nd1 & Hrun1 & Hlen1 & E1).
  pose proof (well_formed_rotated im buf nd1 Hwf Hlen1) as Hwf1.
  destruct (bmp_flip_horizontal_spec _ nd1 Hwf1 w) as (t & Hrun2 & Hlen2 & E2);
    [cbn [width height]; lia|].
  cbn [width height] in Hrun2, E2.
  exists t. split; [|split].
  - unfold mbind, io_bind. now rewrite Hrun1, Hrun2.
  - congruence.
  - intros r c Hr Hc. rewrite E2, E1 by lia. do 2 f_equal. lia.
Qed.

(** X15: [bmp_rotate_right] followed by [bmp_flip_horizontal] transposes
    a well-formed image: the result has the old height as width and the
    old width as height, and [bmp_get_pixel] at [(x, y)] returns what it
    returned at [(y, x)] in the original. *)
Theorem rotate_then_flip_transposes (im : BMPImage) (buf : list Pixel) (w : world) :
  well_formed im buf →
  sizeof_Pixel * (width im * height im) <= heap_avail w →
  ∃ im' : BMPImage,
    (im1 ← bmp_rotate_right (Some im); bmp_flip_horizontal im1) w = Ret (Some im', w)
    ∧ width im' = height im ∧ height im' = width im
    ∧ ∀ x y, 0 <= x < height im → 0 <= y < width im →
        bmp_get_pixel (Some im') x y = bmp_get_pixel (Some im) y x.
Proof.
  intros Hwf Havail.
  destruct (rotate_flip_spec im buf w Hwf Havail) as (t & Hrun & Hlen & Hcells).
  pose proof (well_formed_rotated im buf t Hwf Hlen) as Hwf'.
  eexists. split; [exact Hrun|]. split; [done|]. split; [done|].
  intros x y Hx Hy.
  destruct (bmp_get_pixel_cell _ t x y Hwf') as (p & Hp & ->); [done..|].
  destruct (bmp_get_pixel_cell im buf y x Hwf) as (q & Hq & ->); [lia..|].
  cbn [width height] in Hp. rewrite Hcells in Hp by lia. congruence.
Qed.

Lemma rotate_then_flip_transposes_witness :
  ∃ im' : BMPImage,
    (im1 ← bmp_rotate_right (Some Sample.img31); bmp_flip_horizontal im1) Sample.w0 =
      Ret (Some im', Sample.w0)
    ∧ width im' = 1 ∧ height im' = 3
    ∧ ∀ x y, 0 <= x < 1 → 0 <= y < 3 →
        bmp_get_pixel (Some im') x y = bmp_get_pixel (Some Sample.img31) y x.
Proof.
  apply (rotate_then_flip_transposes Sample.img31 [Sample.p0; Sample.p1; Sample.p2]).
  - repeat split; vm_compute; congruence.
  - vm_compute; congruence.
Defined.

(** ** The test program *)

Lemma bmp_load_rejects (w : world) (name : string) (c : list byte)
    (err_out : option BMPError) :
  files w !! name = Some c →
  ((2 <= length c)%nat ∧ field 0 2 c ≠ 0x4D42)
  ∨ ((30 <= length c)%nat ∧ field 28 2 c ≠ 24) →
  bmp_load name err_out w = Ret ((None, set_err err_out BMP_ERR_INVALID_FORMAT), w).
Proof.
  intros Hf Hbad. unfold bmp_load.
  unfold mbind at 1, io_bind. rewrite (fopen_read_existing w name c Hf).
  set (w1 := set_open_streams _ w).
  assert (Hf1 : files w1 !! name = Some c) by now destruct w.
  unfold mbind at 1, io_bind. unfold alloca at 1.
  unfold mbind at 1, io_bind. unfold alloca at 1.
  change (Z.to_nat sizeof_BMPFileHeader) with 14%nat.
  change (Z.to_nat sizeof_BMPInfoHeader) with 40%nat.
  change sizeof_BMPFileHeader with (Z.of_nat 14).
  change sizeof_BMPInfoHeader with (Z.of_nat 40).
  unfold mbind at 1, io_bind.
  rewrite (fread_header_any w1 name c 0 14 Hf1). cbv zeta. rewrite drop_0.
  unfold mbind at 1, io_bind.
  rewrite (fread_header_any w1 name c _ 40 Hf1). cbv zeta.
  set (fhb := take 14 c ++ _). set (ihb := take 40 _ ++ _).
  assert (Hcheck : negb (fh_type (file_header_of_bytes fhb) =? 0x4D42)
                   || negb (ih_bit_count (info_header_of_bytes ihb) =? 24) = true).
  { destruct Hbad as [[Hlen Hmagic]|[Hlen Hbits]].
    - assert (fh_type (file_header_of_bytes fhb) = field 0 2 c) as ->.
      { cbn [fh_type file_header_of_bytes]. subst fhb.
        rewrite field_prefix by (rewrite length_take; lia).
        rewrite <- (drop_0 c) at 1. now rewrite field_window by lia. }
      apply Z.eqb_neq in Hmagic. now rewrite Hmagic.
    - assert (ih_bit_count (info_header_of_bytes ihb) = field 28 2 c) as ->.
      { cbn [ih_bit_count info_header_of_bytes]. subst ihb.
        replace (0 + length (take 14 c))%nat with 14%nat by (rewrite length_take; lia).
        rewrite field_prefix by (rewrite length_take, length_drop; lia).
        now rewrite field_window by lia. }
      apply Z.eqb_neq in Hbits. rewrite Hbits. apply orb_true_r. }
  rewrite Hcheck.
  unfold mbind, io_bind, fclose, mret, io_ret. subst w1. now destruct w.
Qed.

(** X16: the test program when its input cannot be loaded.  If
    "assets/airplane.bmp" does not exist, [main] never reaches its
    [FAILED] branch: the call of [bmp_load] is already undefined.  If
    the file exists with a wrong signature or depth, [main] prints
    the error code 2, exits with 1 and leaves the world as it was; no
    output file is written. *)
Theorem main_load_failures (err : BMPError) (w : world) :
  (files w !! "assets/airplane.bmp" = None → main err w = Undef NullStream)
  ∧ (∀ c : list byte,
       files w !! "assets/airplane.bmp" = Some c →
       ((2 <= length c)%nat ∧ field 0 2 c ≠ 0x4D42)
       ∨ ((30 <= length c)%nat ∧ field 28 2 c ≠ 24) →
       ∃ out : list string,
         main err w = Ret ((1, out), w)
         ∧ ("FAILED! Error Code: 2" +:+ newline) ∈ out).
Proof.
  split.
  - intros Hf. unfold main. cbv zeta. unfold mbind at 1, io_bind.
    now rewrite bmp_load_missing.
  - intros c Hf Hbad. unfold main. cbv zeta. unfold mbind at 1, io_bind.
    rewrite (bmp_load_rejects w _ c) by done.
    cbn [set_err default from_option id error_code]. unfold mret, io_ret.
    eexists. split; [reflexivity|].
    unfold printf. rewrite !elem_of_app, !list_elem_of_singleton.
    left. right. reflexivity.
Qed.

Lemma main_load_failures_witness :
  main BMP_SUCCESS Sample.w0 = Undef NullStream
  ∧ ∃ out : list string,
      main BMP_SUCCESS Sample.w_main_bad = Ret ((1, out), Sample.w_main_bad)
      ∧ ("FAILED! Error Code: 2" +:+ newline) ∈ out.
Proof.
  split.
  - apply (main_load_failures BMP_SUCCESS Sample.w0). apply lookup_empty.
  - apply (proj2 (main_load_failures BMP_SUCCESS Sample.w_main_bad)
             [Byte.x58; Byte.x58]).
    + apply lookup_singleton_eq.
    + left. split; [simpl; lia | vm_compute; discriminate].
Defined.

(** X17: the test program on a good input.  When "assets/airplane.bmp"
    is the saved file of a well-formed image, "test_output.bmp" can be
    written and the heap has room for the struct and two pixel buffers,
    [main] exits with 0.  It leaves the heap and the open streams as they
    were and changes only "test_output.bmp", which then is the saved file
    of the transposed negative of the gray image: width and height are
    exchanged and the pixel at column [r], row [c] of the output is
    [invert_pixel (gray p)] for the pixel [p] at column [c], row [r] of
    the input. *)
Theorem main_success (im : BMPImage) (buf : list Pixel) (err : BMPError) (w : world) :
  well_formed im buf →
  files w !! "assets/airplane.bmp" = Some (saved_file im buf) →
  "test_output.bmp" ∉ locked w →
  sizeof_BMPImage + 2 * (sizeof_Pixel * (width im * height im)) <= heap_avail w →
  ∃ (out : list string) (t : list Pixel),
    main err w =
      Ret ((0, out),
           set_files (<["test_output.bmp" :=
                         saved_file (mkImage (height im) (width im) (Some t)) t]>
                        (files w)) w)
    ∧ length t = length buf
    ∧ ∀ r c, 0 <= r < width im → 0 <= c < height im →
        t !! Z.to_nat (r * height im + c) =
        (fun p => invert_pixel (gray p)) <$> buf !! Z.to_nat (c * width im + r).
Proof.
  intros Hwf Hin Hout Havail.
  pose proof Hwf as (Hdata & HW & HH & Hlen & Hmax).
  assert (0 < width im * height im) by nia.
  set (w1 := set_heap_avail (heap_avail w - sizeof_BMPImage
                             - sizeof_Pixel * (width im * height im)) w).
  assert (Hload : bmp_load "assets/airplane.bmp" (Some err) w =
                  Ret ((Some im, Some BMP_SUCCESS), w1)).
  { apply (bmp_load_saved_file im buf); [done..|].
    unfold sizeof_BMPImage, sizeof_Pixel in *. lia. }
  set (g := map invert_pixel (map gray buf)).
  assert (Hg : length g = length buf) by (subst g; now rewrite !length_map).
  pose proof (well_formed_same_size im buf (map gray buf) Hwf (length_map _ _)) as Hwfg.
  pose proof (well_formed_same_size im buf g Hwf Hg) as Hwfgi.
  destruct (bmp_rotate_right_spec _ g Hwfgi w1) as (nd1 & Hrot & Hlen1 & E1).
  { cbn [width height]. subst w1. destruct w. cbn [heap_avail set_heap_avail] in *.
    unfold sizeof_BMPImage, sizeof_Pixel in *. lia. }
  pose proof (well_formed_rotated _ g nd1 Hwfgi Hlen1) as Hwf1.
  cbn [width height] in Hrot, E1, Hwf1.
  destruct (bmp_flip_horizontal_spec _ nd1 Hwf1 w1) as (t & Hflip & Hlen2 & E2).
  { cbn [width height]. subst w1. destruct w. cbn [heap_avail set_heap_avail] in *.
    unfold sizeof_BMPImage, sizeof_Pixel in *. lia. }
  pose proof (well_formed_same_size _ nd1 t Hwf1 Hlen2) as Hwft.
  cbn [width height] in Hflip, E2, Hwft.
  assert (Hsave : bmp_save (Some (mkImage (height im) (width im) (Some t)))
                    "test_output.bmp" w1 =
                  Ret (BMP_SUCCESS,
                       set_files (<["test_output.bmp" :=
                                     saved_file (mkImage (height im) (width im) (Some t)) t]>
                                    (files w1)) w1)).
  { apply bmp_save_spec; [done|]. subst w1. now destruct w. }
  eexists. exists t. split; [|split].
  - unfold main. cbv zeta.
    unfold mbind at 1, io_bind. rewrite Hload. cbv beta iota.
    unfold mbind at 1, io_bind. unfold lift at 1.
    rewrite (bmp_grayscale_well_formed im buf Hwf).
    unfold mbind at 1, io_bind. unfold lift at 1.
    rewrite (bmp_invert_well_formed _ (map gray buf) Hwfg). cbn [width height]. fold g.
    unfold mbind at 1, io_bind. rewrite Hrot.
    unfold mbind at 1, io_bind. rewrite Hflip.
    unfold mbind at 1, io_bind. cbn [lift deref].
    unfold mbind at 1, io_bind. rewrite Hsave.
    unfold mbind at 1, io_bind.
    erewrite bmp_free_buffer by reflexivity.
    unfold mret, io_ret. cbn [width height]. f_equal. f_equal.
    subst w1. destruct w. unfold set_files, set_heap_avail.
    cbn [files locked heap_avail junk open_streams]. f_equal.
    unfold sizeof_BMPImage, sizeof_Pixel in *. lia.
  - congruence.
  - intros r c Hr Hc. rewrite E2, E1 by lia.
    replace (height im - 1 - (height im - 1 - c)) with c by lia.
    subst g. rewrite map_map.
    change (map (fun x => invert_pixel (gray x)) buf)
      with ((fun x => invert_pixel (gray x)) <$> buf).
    now rewrite list_lookup_fmap.
Qed.

Lemma main_success_witness :
  ∃ (out : list string) (t : list Pixel),
    main BMP_SUCCESS Sample.w_main =
      Ret ((0, out),
           set_files (<["test_output.bmp" := saved_file (mkImage 1 3 (Some t)) t]>
                        (files Sample.w_main)) Sample.w_main)
    ∧ length t = 3%nat
    ∧ ∀ r c, 0 <= r < 3 → 0 <= c < 1 →
        t !! Z.to_nat (r * 1 + c) =
        (fun p => invert_pixel (gray p)) <$>
          [Sample.p0; Sample.p1; Sample.p2] !! Z.to_nat (c * 3 + r).
Proof.
  apply (main_success Sample.img31 [Sample.p0; Sample.p1; Sample.p2]
           BMP_SUCCESS Sample.w_main).
  - repeat split; vm_compute; congruence.
  - apply lookup_singleton_eq.
  - apply not_elem_of_empty.
  - vm_compute; congruence.
Defined.

(** ** The offset field *)

(** X18: [bmp_load] finds the pixel rows through the offset field of the
    file header, not right after the headers, and reads neither the
    size fields nor the bytes in between.  A file with correct signature,
    depth, width and height whose rows start [length gap] bytes after the
    headers, with the offset field saying so, loads as the image the rows
    were taken from. *)
Theorem bmp_load_follows_offset (im : BMPImage) (buf : list Pixel) (gap : list byte)
    (name : string) (err_out : option BMPError) (w : world) :
  well_formed im buf →
  54 + Z.of_nat (length gap) < 2 ^ 32 →
  files w !! name = Some (gapped_file im buf gap) →
  sizeof_BMPImage + sizeof_Pixel * (width im * height im) <= heap_avail w →
  bmp_load name err_out w =
    Ret ((Some im, set_err err_out BMP_SUCCESS),
         set_heap_avail (heap_avail w - sizeof_BMPImage
                         - sizeof_Pixel * (width im * height im)) w).
Proof.
  intros Hwf Hgap Hf Havail.
  pose proof Hwf as (Hdata & HW & HH & Hlen & Hmax).
  pose proof (row_padding_range (width im)) as Hpad.
  assert (width im <= INT_MAX ∧ height im <= INT_MAX) as [HWmax HHmax] by nia.
  set (fhb := file_header_bytes
                (mkFileHeader 0x4D42 0 0 0 (54 + Z.of_nat (length gap)))).
  set (ihb := info_header_bytes
                (mkInfoHeader 40 (width im) (height im) 1 24 0 0 2835 2835 0 0)).
  set (rows := padded_rows (Z.to_nat (width im)) (Z.to_nat (row_padding (width im)))
                 buf (Z.to_nat (height im))).
  assert (Hfile : gapped_file im buf gap = fhb ++ ihb ++ gap ++ rows) by reflexivity.
  assert (Hsize : Z.of_nat (length (gapped_file im buf gap)) =
                  54 + Z.of_nat (length gap)
                  + height im * (3 * width im + row_padding (width im))).
  { rewrite Hfile, !length_app. subst fhb ihb rows.
    rewrite file_header_bytes_length, info_header_bytes_length.
    rewrite padded_rows_length by nia. nia. }
  assert (Hfh : file_header_of_bytes (take 14 (gapped_file im buf gap)) =
                mkFileHeader 0x4D42 0 0 0 (54 + Z.of_nat (length gap))).
  { rewrite Hfile. subst fhb. rewrite file_header_wire.
    cbn [fh_type fh_size fh_reserved1 fh_reserved2 fh_offset].
    f_equal. unfold to_u32. apply Z.mod_small. lia. }
  assert (Hih : info_header_of_bytes (take 40 (drop 14 (gapped_file im buf gap))) =
                mkInfoHeader 40 (width im) (height im) 1 24 0 0 2835 2835 0 0).
  { rewrite Hfile. rewrite drop_app_length' by reflexivity.
    subst ihb. rewrite info_header_wire. cbn [ih_size ih_width ih_height ih_planes
      ih_bit_count ih_compression ih_size_image ih_x_pixels_per_meter
      ih_y_pixels_per_meter ih_colors_used ih_colors_important].
    rewrite !to_int_to_u32 by (unfold INT_MIN, INT_MAX in *; lia).
    reflexivity. }
  pose proof (bmp_load_spec w name (gapped_file im buf gap) err_out Hf) as Hload.
  cbv zeta in Hload. rewrite Hfh, Hih in Hload.
  cbn [fh_type fh_offset ih_width ih_height ih_bit_count] in Hload.
  rewrite (Z.abs_eq (height im)) in Hload by lia.
  rewrite (to_int_id (height im)) in Hload by (unfold INT_MIN, INT_MAX in *; lia).
  rewrite Hload; [|lia|done|done|done|done|done|done|lia].
  assert (Hrows : stored_rows (Z.to_nat (width im))
                    (Z.to_nat (3 * width im + row_padding (width im)))
                    (gapped_file im buf gap) (Z.to_nat (54 + Z.of_nat (length gap)))
                    (Z.to_nat (height im)) = buf).
  { rewrite Hfile.
    replace (fhb ++ ihb ++ gap ++ rows) with ((fhb ++ ihb ++ gap) ++ rows)
      by now rewrite <- !app_assoc.
    replace (Z.to_nat (3 * width im + row_padding (width im)))
      with (3 * Z.to_nat (width im) + Z.to_nat (row_padding (width im)))%nat by lia.
    replace (Z.to_nat (54 + Z.of_nat (length gap))) with (length (fhb ++ ihb ++ gap)).
    2:{ rewrite !length_app. subst fhb ihb.
        rewrite file_header_bytes_length, info_header_bytes_length. lia. }
    subst rows. rewrite stored_padded_rows by nia.
    apply take_ge. nia. }
  rewrite Hrows. destruct im as [W H d]. cbn [width height data] in *. now subst d.
Qed.

Lemma bmp_load_follows_offset_witness :
  bmp_load "image.bmp" None Sample.w_gapped =
    Ret ((Some Sample.img22, None),
         set_heap_avail (4096 - 16 - 3 * (2 * 2)) Sample.w_gapped).
Proof.
  apply (bmp_load_follows_offset Sample.img22
           [Sample.p0; Sample.p1; Sample.p2; Sample.p3] [Byte.x01; Byte.x02]
           "image.bmp" None Sample.w_gapped).
  - repeat split; vm_compute; congruence.
  - vm_compute; reflexivity.
  - apply lookup_singleton_eq.
  - vm_compute; congruence.
Defined.
